(** * Storage services and output schema of langflow: a shallow embedding

    The development follows
    - [langflow/services/storage/service.py]  (the abstract [StorageService]),
    - [langflow/services/storage/local.py]    ([LocalStorageService]),
    - [langflow/services/storage/s3.py]       ([S3StorageService]),
    - [lfx/schema/schema.py]                  ([OutputValue] and friends).

    The Python methods are effectful: they touch the disk or the bucket,
    write to the logger and raise exceptions.  They are embedded as
    computations in a state-and-exception monad over an explicit [world]
    (file system, object-storage provider, log).  The operating system and
    the object-storage SDK are not part of the repository; they are given a
    small executable model below, documented where it abstracts. *)

From Stdlib Require Import Init.Byte Ascii.
From stdpp Require Import gmap strings list pretty.

Local Open Scope string_scope.

(** ** Exceptions *)

(** The [Error] entry of a botocore error response; both keys are optional,
    the code reads them with [.get(..., default)]. *)
Record error_response := { Code : option string; Message : option string }.

(** [BotoCoreError kind] stands for the exceptions of the SDK that are
    neither [NoCredentialsError] nor [ClientError]: the SDK raises them by
    itself, without an answer from the service ([ParamValidationError] on a
    parameter it refuses, [EndpointConnectionError] and the like when the
    service cannot be reached). *)

Inductive exn :=
| FileNotFoundError (msg : string)
| FileExistsError (msg : string)
| NotADirectoryError (msg : string)
| IsADirectoryError (msg : string)
| PermissionError (msg : string)
| OSError (msg : string)
| ValueError (msg : string)
| TypeError (msg : string)
| NoCredentialsError
| ClientError (response : option error_response) (operation_name : string)
| BotoCoreError (kind : string)
| RuntimeError (msg : string) (cause : exn)
| ValidationError (fields : list string).

Inductive result (A : Type) :=
| Ok (a : A)
| Raise (e : exn).
Arguments Ok {A} a.
Arguments Raise {A} e.

(** ** The logger *)

Inductive level := DEBUG | INFO | WARNING | ERROR.

(** [logger.exception(msg)] logs at level ERROR and attaches the exception
    being handled; the other calls attach nothing. *)
Record log_record := { lvl : level; text : string; exc_info : option exn }.

(** ** Paths (pathlib / anyio.Path) *)

Abbreviation bytes := (list byte).
Abbreviation path := (list string).

(** [s.split("/")] *)
Fixpoint split_slash (s : string) : list string :=
  match s with
  | EmptyString => [EmptyString]
  | String c rest =>
      if Ascii.eqb c "/"%char then EmptyString :: split_slash rest
      else match split_slash rest with
           | [] => [String c EmptyString]
           | hd :: tl => String c hd :: tl
           end
  end.

(** The components pathlib keeps of a string: empty components (doubled or
    trailing slashes) and ["."] are dropped.  A path is kept as the list of
    its components below the root, so that a string starting with exactly
    two slashes, for which pathlib keeps a root of its own, is read like
    one starting with a single slash. *)
Definition components (s : string) : path :=
  filter (λ c, c ≠ "" ∧ c ≠ ".") (split_slash s).

Definition is_absolute (s : string) : bool :=
  match s with
  | String c _ => Ascii.eqb c "/"%char
  | EmptyString => false
  end.

(** [p / s]: an absolute right operand replaces the left one. *)
Definition joinpath (p : path) (s : string) : path :=
  if is_absolute s then components s else p ++ components s.
Infix "</>" := joinpath (at level 40, left associativity).

Definition parent (p : path) : path := removelast p.

(** [str(p)] *)
Definition path_str (p : path) : string :=
  match p with
  | [] => "/"
  | _ => String.concat "" (map (λ c, "/" +:+ c) p)
  end.

(** ** The file system

    A flat map from absolute paths to nodes; the root is always a directory.
    [readonly] holds the paths the process may not modify: a read-only file
    cannot be opened for writing, a read-only directory accepts no new entry
    and loses none.  Paths are looked up as they are written: there are no
    symbolic links, [".."] is an ordinary name and is not resolved to the
    directory above, names and paths have no maximal length, the disk is
    never full, and reading is always permitted. *)

Inductive node :=
| File (content : bytes)
| Dir.

Record filesystem := { nodes : gmap path node; readonly : gset path }.

Definition node_at (t : filesystem) (p : path) : option node :=
  match p with
  | [] => Some Dir
  | _ => nodes t !! p
  end.

Definition set_node (p : path) (n : node) (t : filesystem) : filesystem :=
  {| nodes := <[p := n]> (nodes t); readonly := readonly t |}.

Definition remove_node (p : path) (t : filesystem) : filesystem :=
  {| nodes := delete p (nodes t); readonly := readonly t |}.

Definition is_readonly (t : filesystem) (p : path) : bool :=
  bool_decide (p ∈ readonly t).

(** ** The object-storage provider (boto3 S3 client and the service behind)

    [credentials] tells whether the default credential chain finds
    something; [buckets] is what the service stores; [fault] is an error
    the service answers every request with; [outage] is a failure to reach
    the service at all, named by the exception class the SDK raises;
    [access_points] holds the names of ARN form that the SDK admits in
    place of a bucket name; [calls] is the trace of requests the client was
    asked to make, whether they succeeded or not. *)

Inductive s3_call :=
| PutObject (Bucket Key : string) (Body : bytes)
| GetObject (Bucket Key : string)
| ListObjectsV2 (Bucket Prefix : string)
| DeleteObject (Bucket Key : string)
| HeadObject (Bucket Key : string).

Record provider := {
  credentials : bool;
  buckets : gmap string (gmap string bytes);
  fault : option error_response;
  outage : option string;
  access_points : gset string;
  calls : list s3_call
}.

(** ** The world and the monad *)

Record world := { fs : filesystem; cloud : provider; log : list log_record }.

Definition set_fs (t : filesystem) (w : world) : world :=
  {| fs := t; cloud := cloud w; log := log w |}.
Definition set_cloud (c : provider) (w : world) : world :=
  {| fs := fs w; cloud := c; log := log w |}.
Definition add_log (r : log_record) (w : world) : world :=
  {| fs := fs w; cloud := cloud w; log := log w ++ [r] |}.

(** State [S] threaded through, exceptions short-circuit. *)
Definition M (S A : Type) : Type := S → result A * S.

Definition ret {S A} (a : A) : M S A := λ s, (Ok a, s).
Definition raise {S A} (e : exn) : M S A := λ s, (Raise e, s).
Definition bind {S A B} (m : M S A) (k : A → M S B) : M S B :=
  λ s, match m s with
       | (Ok a, s') => k a s'
       | (Raise e, s') => (Raise e, s')
       end.

#[global] Instance M_ret {S} : MRet (M S) := @ret S.
#[global] Instance M_bind {S} : MBind (M S) := λ A B k m, bind m k.

(** [try: body except E: handler]; a handler that does not match the
    exception re-raises it. *)
Definition try_except {S A} (body : M S A) (handler : exn → M S A) : M S A :=
  λ s, match body s with
       | (Ok a, s') => (Ok a, s')
       | (Raise e, s') => handler e s'
       end.

Definition emit (l : level) (msg : string) (e : option exn) : M world unit :=
  λ w, (Ok tt, add_log {| lvl := l; text := msg; exc_info := e |} w).

Module logger.
Definition debug (msg : string) : M world unit := emit DEBUG msg None.
Definition info (msg : string) : M world unit := emit INFO msg None.
Definition warning (msg : string) : M world unit := emit WARNING msg None.
Definition error (msg : string) : M world unit := emit ERROR msg None.
(** Called from an [except] block, [handled] is the exception in flight. *)
Definition exception (handled : exn) (msg : string) : M world unit :=
  emit ERROR msg (Some handled).
End logger.

(** ** Operating-system calls on the file system *)

Definition is_OSError (e : exn) : bool :=
  match e with
  | FileNotFoundError _ | FileExistsError _ | NotADirectoryError _
  | IsADirectoryError _ | PermissionError _ | OSError _ => true
  | _ => false
  end.

Module os.
(** [os.mkdir(p)]: the parent must be an existing directory, the name must
    be free, and the parent must accept new entries. *)
Definition mkdir (p : path) : M world unit := λ w,
  let t := fs w in
  match p with
  | [] => (Raise (FileExistsError (path_str p)), w)
  | _ =>
      match node_at t (parent p) with
      | None => (Raise (FileNotFoundError (path_str p)), w)
      | Some (File _) => (Raise (NotADirectoryError (path_str p)), w)
      | Some Dir =>
          match node_at t p with
          | Some _ => (Raise (FileExistsError (path_str p)), w)
          | None =>
              if is_readonly t (parent p)
              then (Raise (PermissionError (path_str p)), w)
              else (Ok tt, set_fs (set_node p Dir t) w)
          end
      end
  end.

(** [os.unlink(p)] *)
Definition unlink (p : path) : M world unit := λ w,
  let t := fs w in
  match node_at t p with
  | None => (Raise (FileNotFoundError (path_str p)), w)
  | Some Dir => (Raise (IsADirectoryError (path_str p)), w)
  | Some (File _) =>
      if is_readonly t (parent p)
      then (Raise (PermissionError (path_str p)), w)
      else (Ok tt, set_fs (remove_node p t) w)
  end.

(** [os.listdir(p)], as full paths of the direct entries *)
Definition scandir (p : path) : M world (list path) := λ w,
  let t := fs w in
  match node_at t p with
  | None => (Raise (FileNotFoundError (path_str p)), w)
  | Some (File _) => (Raise (NotADirectoryError (path_str p)), w)
  | Some Dir =>
      (Ok (filter (λ q, q ≠ [] ∧ parent q = p) (map_to_list (nodes t)).*1), w)
  end.

(** [os.stat(p).st_size]: the length of a regular file; what the system
    reports for a directory is left to [dir_size]. *)
Definition stat_size (dir_size : path → nat) (p : path) : M world nat := λ w,
  match node_at (fs w) p with
  | None => (Raise (FileNotFoundError (path_str p)), w)
  | Some Dir => (Ok (dir_size p), w)
  | Some (File c) => (Ok (length c), w)
  end.
End os.

(** ** pathlib / anyio.Path methods *)

Module Path.
Definition exists_ (p : path) : M world bool := λ w,
  (Ok (bool_decide (is_Some (node_at (fs w) p))), w).

Definition is_dir (p : path) : M world bool := λ w,
  (Ok (match node_at (fs w) p with Some Dir => true | _ => false end), w).

Definition is_file (p : path) : M world bool := λ w,
  (Ok (match node_at (fs w) p with Some (File _) => true | _ => false end), w).

(** The last component, [p.name] *)
Definition name (p : path) : string := List.last p "".

(** [p.mkdir(parents=False, exist_ok=...)] *)
Definition mkdir_single (exist_ok : bool) (p : path) : M world unit :=
  try_except (os.mkdir p) (λ e,
    match e with
    | FileNotFoundError _ => raise e
    | _ =>
        if is_OSError e then
          d ← is_dir p;
          if negb exist_ok || negb d then raise e else mret tt
        else raise e
    end).

(** [p.mkdir(parents=True, exist_ok=...)], by recursion on the reversed
    components: on [FileNotFoundError] the parent is created first, with
    [parents=True, exist_ok=True], and the directory itself is then
    created with [parents=False]. *)
Fixpoint mkdir_parents_rev (exist_ok : bool) (rp : list string) : M world unit :=
  let p := rev rp in
  try_except (os.mkdir p) (λ e,
    match e with
    | FileNotFoundError _ =>
        match rp with
        | [] => raise e
        | _ :: rp' => mkdir_parents_rev true rp' ;; mkdir_single exist_ok p
        end
    | _ =>
        if is_OSError e then
          d ← is_dir p;
          if negb exist_ok || negb d then raise e else mret tt
        else raise e
    end).

Definition mkdir (parents exist_ok : bool) (p : path) : M world unit :=
  if parents then mkdir_parents_rev exist_ok (rev p) else mkdir_single exist_ok p.

(** [p.iterdir()] *)
Definition iterdir (p : path) : M world (list path) := os.scandir p.
End Path.

(** ** aiofile: [async_open] and the handle's [read] / [write] *)

Module aiofile.
(** A handle is the path it was opened on. *)
Definition open_wb (p : path) : M world path := λ w,
  let t := fs w in
  match node_at t p with
  | Some Dir => (Raise (IsADirectoryError (path_str p)), w)
  | Some (File _) =>
      if is_readonly t p
      then (Raise (PermissionError (path_str p)), w)
      else (Ok p, set_fs (set_node p (File []) t) w)
  | None =>
      match node_at t (parent p) with
      | None => (Raise (FileNotFoundError (path_str p)), w)
      | Some (File _) => (Raise (NotADirectoryError (path_str p)), w)
      | Some Dir =>
          if is_readonly t (parent p)
          then (Raise (PermissionError (path_str p)), w)
          else (Ok p, set_fs (set_node p (File []) t) w)
      end
  end.

Definition write (f : path) (data : bytes) : M world unit := λ w,
  match node_at (fs w) f with
  | Some (File c) => (Ok tt, set_fs (set_node f (File (c ++ data)) (fs w)) w)
  | _ => (Raise (OSError "Bad file descriptor"), w)
  end.

Definition open_rb (p : path) : M world path := λ w,
  match node_at (fs w) p with
  | Some (File _) => (Ok p, w)
  | Some Dir => (Raise (IsADirectoryError (path_str p)), w)
  | None => (Raise (FileNotFoundError (path_str p)), w)
  end.

Definition read (f : path) : M world bytes := λ w,
  match node_at (fs w) f with
  | Some (File c) => (Ok c, w)
  | _ => (Raise (OSError "Bad file descriptor"), w)
  end.
End aiofile.

(** ** local.py: [LocalStorageService] *)

Module LocalStorageService.
Record t := { data_dir : path }.

Definition build_full_path (self : t) (identifier file_name : string) : string :=
  path_str (data_dir self </> identifier </> file_name).

Definition save_file (self : t) (identifier file_name : string) (data : bytes)
  : M world unit :=
  let folder_path := data_dir self </> identifier in
  Path.mkdir true true folder_path ;;
  let file_path := folder_path </> file_name in
  try_except
    (f ← aiofile.open_wb file_path;
     aiofile.write f data ;;
     logger.info ("File " +:+ file_name +:+ " saved successfully with identifier "
                    +:+ identifier +:+ "."))
    (λ e,
       logger.exception e ("Error saving file " +:+ file_name +:+ " with identifier "
                             +:+ identifier) ;;
       raise e).

Definition get_file (self : t) (identifier file_name : string) : M world bytes :=
  let file_path := data_dir self </> identifier </> file_name in
  ex ← Path.exists_ file_path;
  if negb ex then
    logger.warning ("File " +:+ file_name +:+ " not found with identifier "
                      +:+ identifier +:+ ".") ;;
    raise (FileNotFoundError ("File " +:+ file_name +:+ " not found with identifier "
                                +:+ identifier))
  else
    f ← aiofile.open_rb file_path;
    content ← aiofile.read f;
    logger.debug ("File " +:+ file_name +:+ " retrieved successfully with identifier "
                    +:+ identifier +:+ ".") ;;
    mret content.

(** The comprehension [[file.name async for file in ... if await is_file(file)]] *)
Fixpoint regular_names (entries : list path) : M world (list string) :=
  match entries with
  | [] => mret ([] : list string)
  | file :: rest =>
      keep ← Path.is_file file;
      names ← regular_names rest;
      mret (if keep : bool then Path.name file :: names else names)
  end.

(** [identifier] is a [str] here, so the [isinstance] conversion at the top
    of the method leaves it as it is. *)
Definition list_files (self : t) (identifier : string) : M world (list string) :=
  let folder_path := data_dir self </> identifier in
  ex ← Path.exists_ folder_path;
  missing ← (if negb ex then mret true else d ← Path.is_dir folder_path; mret (negb d));
  if missing : bool then
    logger.warning ("Tenant " +:+ identifier +:+ " directory does not exist.") ;;
    raise (FileNotFoundError ("Tenant " +:+ identifier +:+ " directory does not exist."))
  else
    entries ← Path.iterdir folder_path;
    files ← regular_names entries;
    logger.info ("Listed " +:+ pretty (length files) +:+ " files with identifier "
                   +:+ identifier +:+ ".") ;;
    mret files.

Definition delete_file (self : t) (identifier file_name : string) : M world unit :=
  let file_path := data_dir self </> identifier </> file_name in
  ex ← Path.exists_ file_path;
  if ex : bool then
    os.unlink file_path ;;
    logger.info ("File " +:+ file_name +:+ " deleted successfully with identifier "
                   +:+ identifier +:+ ".")
  else
    logger.warning ("Attempted to delete non-existent file " +:+ file_name
                      +:+ " with identifier " +:+ identifier +:+ ".").

Definition teardown (self : t) : M world unit := mret tt.

Definition get_file_size (dir_size : path → nat) (self : t) (identifier file_name : string)
  : M world nat :=
  let file_path := data_dir self </> identifier </> file_name in
  ex ← Path.exists_ file_path;
  if negb ex then
    logger.warning ("File " +:+ file_name +:+ " not found with identifier "
                      +:+ identifier +:+ ".") ;;
    raise (FileNotFoundError ("File " +:+ file_name +:+ " not found with identifier "
                                +:+ identifier))
  else os.stat_size dir_size file_path.
End LocalStorageService.

(** ** boto3: the S3 client *)

Module boto3.
Record client := {
  region_name : option string;
  aws_access_key_id : option string;
  aws_secret_access_key : option string
}.

Definition operation_name (c : s3_call) : string :=
  match c with
  | PutObject _ _ _ => "PutObject"
  | GetObject _ _ => "GetObject"
  | ListObjectsV2 _ _ => "ListObjectsV2"
  | DeleteObject _ _ => "DeleteObject"
  | HeadObject _ _ => "HeadObject"
  end.

Definition record_call (c : s3_call) (p : provider) : provider :=
  {| credentials := credentials p; buckets := buckets p; fault := fault p;
     outage := outage p; access_points := access_points p;
     calls := calls p ++ [c] |}.

Definition set_bucket (name : string) (objs : gmap string bytes) (p : provider) : provider :=
  {| credentials := credentials p; buckets := <[name := objs]> (buckets p);
     fault := fault p; outage := outage p; access_points := access_points p;
     calls := calls p |}.

(** The SDK checks the [Bucket] parameter before anything is sent
    (botocore's [validate_bucket_name]): the name must match
    [^[a-zA-Z0-9.\-_]{1,255}$] or be an ARN of an access point.  [$] also
    matches before a final line feed. *)
Definition bucket_name_char (c : ascii) : bool :=
  let n := nat_of_ascii c in
  ((65 <=? n) && (n <=? 90) || (97 <=? n) && (n <=? 122) || (48 <=? n) && (n <=? 57)
   || (n =? 46) || (n =? 45) || (n =? 95))%nat.

(** [s] without its final line feed, if it has one *)
Fixpoint chomp (s : string) : string :=
  match s with
  | EmptyString => EmptyString
  | String c EmptyString => if (nat_of_ascii c =? 10)%nat then EmptyString else s
  | String c rest => String c (chomp rest)
  end.

Fixpoint all_chars (f : ascii → bool) (s : string) : bool :=
  match s with
  | EmptyString => true
  | String c rest => f c && all_chars f rest
  end.

Definition plain_bucket_name (s : string) : bool :=
  let body := chomp s in
  (1 <=? String.length body)%nat && (String.length body <=? 255)%nat
  && all_chars bucket_name_char body.

Definition valid_bucket_name (p : provider) (s : string) : bool :=
  plain_bucket_name s
  || (String.prefix "arn:" s && bool_decide (s ∈ access_points p)).

(** A request is signed with the client's explicit keys or with what the
    default credential chain finds. *)
Definition can_sign (c : client) (p : provider) : bool :=
  (bool_decide (is_Some (aws_access_key_id c)) && bool_decide (is_Some (aws_secret_access_key c)))
  || credentials p.

Definition no_such_bucket : error_response :=
  {| Code := Some "NoSuchBucket"; Message := Some "The specified bucket does not exist" |}.
Definition no_such_key : error_response :=
  {| Code := Some "NoSuchKey"; Message := Some "The specified key does not exist." |}.
Definition not_found_404 : error_response :=
  {| Code := Some "404"; Message := Some "Not Found" |}.

(** What every operation starts with: the call is recorded, the SDK checks
    the bucket parameter, the request is signed and sent, the service may
    answer with an error of its own, and the bucket must exist.  The result
    is the bucket's content. *)
Definition request (c : client) (call : s3_call) (Bucket : string)
  : M world (gmap string bytes) := λ w,
  let w' := set_cloud (record_call call (cloud w)) w in
  if negb (valid_bucket_name (cloud w) Bucket)
  then (Raise (BotoCoreError "ParamValidationError"), w')
  else if negb (can_sign c (cloud w)) then (Raise NoCredentialsError, w')
  else match outage (cloud w) with
       | Some kind => (Raise (BotoCoreError kind), w')
       | None =>
           match fault (cloud w) with
           | Some r => (Raise (ClientError (Some r) (operation_name call)), w')
           | None =>
               match buckets (cloud w) !! Bucket with
               | None =>
                   (Raise (ClientError (Some no_such_bucket) (operation_name call)), w')
               | Some objs => (Ok objs, w')
               end
           end
       end.

Definition store (Bucket : string) (objs : gmap string bytes) : M world unit := λ w,
  (Ok tt, set_cloud (set_bucket Bucket objs (cloud w)) w).

Definition put_object (c : client) (Bucket Key : string) (Body : bytes) : M world unit :=
  objs ← request c (PutObject Bucket Key Body) Bucket;
  store Bucket (<[Key := Body]> objs).

(** The result stands for [response["Body"].read()]. *)
Definition get_object (c : client) (Bucket Key : string) : M world bytes :=
  objs ← request c (GetObject Bucket Key) Bucket;
  match objs !! Key with
  | Some body => mret body
  | None => raise (ClientError (Some no_such_key) "GetObject")
  end.

Definition delete_object (c : client) (Bucket Key : string) : M world unit :=
  objs ← request c (DeleteObject Bucket Key) Bucket;
  store Bucket (delete Key objs).

(** The result stands for [response["ContentLength"]]. *)
Definition head_object (c : client) (Bucket Key : string) : M world nat :=
  objs ← request c (HeadObject Bucket Key) Bucket;
  match objs !! Key with
  | Some body => mret (length body)
  | None => raise (ClientError (Some not_found_404) "HeadObject")
  end.

(** The response of [list_objects_v2]: the [Contents] entry is absent when
    no key matches; one page holds at most 1000 keys. *)
Record list_response := { Contents : option (list string) }.

Definition list_objects_v2 (c : client) (Bucket Prefix : string) : M world list_response :=
  objs ← request c (ListObjectsV2 Bucket Prefix) Bucket;
  let keys := take 1000 (filter (λ k, String.prefix Prefix k = true) (map_to_list objs).*1) in
  mret {| Contents := match keys with [] => None | _ => Some keys end |}.

(** [str(e)] of a [ClientError] *)
Definition ClientError_str (response : option error_response) (op : string) : string :=
  let code := default "Unknown" (response ≫= Code) in
  let msg := default "Unknown" (response ≫= Message) in
  "An error occurred (" +:+ code +:+ ") when calling the " +:+ op +:+ " operation: " +:+ msg.
End boto3.

(** ** Python values reaching the object-storage backend

    The signatures announce [str] and [bytes], but the methods test their
    arguments at run time: an identifier or a file name may be [None], the
    data may be [None] or something that is not [bytes]. *)

Inductive pyval :=
| PyNone
| PyBytes (b : bytes)
| PyStr (s : string).

(** [v is None] *)
Definition is_None (v : pyval) : bool :=
  match v with
  | PyNone => true
  | _ => false
  end.

(** [not x] for an optional string: [None] and [""] are falsy. *)
Definition falsy (x : option string) : bool :=
  match x with
  | None => true
  | Some s => bool_decide (s = "")
  end.

(** [f"{x}"] *)
Definition fmt (x : option string) : string :=
  match x with
  | Some s => s
  | None => "None"
  end.

(** [f"{type(v)}"] *)
Definition type_repr (v : pyval) : string :=
  match v with
  | PyNone => "<class 'NoneType'>"
  | PyBytes _ => "<class 'bytes'>"
  | PyStr _ => "<class 'str'>"
  end.

(** [f"{v}"]; the rendering of a [bytes] literal is left abstract as the
    code never formats one. *)
Definition val_repr (v : pyval) : string :=
  match v with
  | PyNone => "None"
  | PyBytes _ => "b'...'"
  | PyStr s => s
  end.

(** [key[n:]] *)
Fixpoint string_drop (n : nat) (s : string) : string :=
  match n, s with
  | 0, _ => s
  | S n', String _ rest => string_drop n' rest
  | S _, EmptyString => EmptyString
  end.

(** ["/" in s] *)
Fixpoint has_slash (s : string) : bool :=
  match s with
  | EmptyString => false
  | String c rest => Ascii.eqb c "/"%char || has_slash rest
  end.

(** ** s3.py: [S3StorageService] *)

Module S3StorageService.
Record t := { bucket : string; s3_client : boto3.client }.

Definition _build_path (self : t) (identifier file_name : option string) : string :=
  "tenant-" +:+ fmt identifier +:+ "/" +:+ fmt file_name.

Definition save_file (self : t) (identifier file_name : option string) (data : pyval)
  : M world unit :=
  if falsy identifier || falsy file_name || is_None data then
    raise (ValueError "identifier, file_name, and data must be provided")
  else
    try_except
      (let key := "tenant-" +:+ fmt identifier +:+ "/" +:+ fmt file_name in
       match data with
       | PyNone =>
           logger.error "Data is None - this should have been caught by validation" ;;
           raise (ValueError "Data cannot be None")
       | PyBytes body =>
           boto3.put_object (s3_client self) (bucket self) key body ;;
           logger.info ("File " +:+ fmt file_name +:+ " saved successfully in tenant "
                          +:+ fmt identifier +:+ ".")
       | _ =>
           logger.error ("Data is not bytes, it's " +:+ type_repr data +:+ ": "
                           +:+ val_repr data) ;;
           raise (TypeError ("Data must be bytes, got " +:+ type_repr data))
       end)
      (λ e,
         match e with
         | NoCredentialsError =>
             logger.exception e "Credentials not available for AWS S3." ;;
             raise e
         | ClientError response op =>
             let error_code := default "Unknown" (response ≫= Code) in
             let error_message :=
               default (boto3.ClientError_str response op) (response ≫= Message) in
             if bool_decide (error_code = "NoSuchBucket") then
               let msg := "S3 bucket '" +:+ bucket self
                          +:+ "' does not exist. Please create the bucket or check your configuration." in
               logger.exception e msg ;;
               raise (RuntimeError msg e)
             else
               logger.exception e ("Error saving file " +:+ fmt file_name +:+ " in tenant "
                                     +:+ fmt identifier +:+ ": " +:+ error_code +:+ " - "
                                     +:+ error_message) ;;
               raise e
         | _ => raise e
         end).

Definition get_file (self : t) (identifier file_name : option string) : M world bytes :=
  if falsy identifier || falsy file_name then
    raise (ValueError "identifier and file_name must be provided")
  else
    try_except
      (let key := "tenant-" +:+ fmt identifier +:+ "/" +:+ fmt file_name in
       body ← boto3.get_object (s3_client self) (bucket self) key;
       logger.info ("File " +:+ fmt file_name +:+ " retrieved successfully from tenant "
                      +:+ fmt identifier +:+ ".") ;;
       mret body)
      (λ e,
         match e with
         | ClientError _ _ =>
             logger.exception e ("Error retrieving file " +:+ fmt file_name
                                   +:+ " from tenant " +:+ fmt identifier) ;;
             raise e
         | _ => raise e
         end).

(** The loop over [response.get("Contents", [])] *)
Definition file_names (prefix : string) (keys : list string) : list string :=
  string_drop (String.length prefix) <$>
    filter (λ key, String.prefix prefix key = true
                   ∧ has_slash (string_drop (String.length prefix) key) = false) keys.

Definition list_files (self : t) (identifier : option string) : M world (list string) :=
  if falsy identifier then
    raise (ValueError "identifier must be provided")
  else
    let prefix := "tenant-" +:+ fmt identifier +:+ "/" in
    response ← try_except
      (boto3.list_objects_v2 (s3_client self) (bucket self) prefix)
      (λ e,
         match e with
         | ClientError _ _ =>
             logger.exception e ("Error listing files in tenant " +:+ fmt identifier) ;;
             raise e
         | _ => raise e
         end);
    let files := file_names prefix (default [] (boto3.Contents response)) in
    logger.info (pretty (length files) +:+ " files listed in tenant "
                   +:+ fmt identifier +:+ ".") ;;
    mret files.

Definition delete_file (self : t) (identifier file_name : option string) : M world unit :=
  if falsy identifier || falsy file_name then
    raise (ValueError "identifier and file_name must be provided")
  else
    try_except
      (let key := "tenant-" +:+ fmt identifier +:+ "/" +:+ fmt file_name in
       boto3.delete_object (s3_client self) (bucket self) key ;;
       logger.info ("File " +:+ fmt file_name +:+ " deleted successfully from tenant "
                      +:+ fmt identifier +:+ "."))
      (λ e,
         match e with
         | ClientError _ _ =>
             logger.exception e ("Error deleting file " +:+ fmt file_name
                                   +:+ " from tenant " +:+ fmt identifier) ;;
             raise e
         | _ => raise e
         end).

Definition get_file_size (self : t) (identifier file_name : option string) : M world nat :=
  if falsy identifier || falsy file_name then
    raise (ValueError "identifier and file_name must be provided")
  else
    try_except
      (let key := "tenant-" +:+ fmt identifier +:+ "/" +:+ fmt file_name in
       file_size ← boto3.head_object (s3_client self) (bucket self) key;
       logger.info ("File " +:+ fmt file_name +:+ " size retrieved successfully from tenant "
                      +:+ fmt identifier +:+ ": " +:+ pretty file_size +:+ " bytes.") ;;
       mret file_size)
      (λ e,
         match e with
         | ClientError _ _ =>
             logger.exception e ("Error getting file size for " +:+ fmt file_name
                                   +:+ " in tenant " +:+ fmt identifier) ;;
             raise e
         | _ => raise e
         end).

Definition teardown (self : t) : M world unit := mret tt.
End S3StorageService.

(** ** service.py: the contract, dispatched on the backend in use *)

Inductive StorageService :=
| Local (svc : LocalStorageService.t)
| S3 (svc : S3StorageService.t).

Definition save_file (b : StorageService) (identifier file_name : string) (data : bytes)
  : M world unit :=
  match b with
  | Local svc => LocalStorageService.save_file svc identifier file_name data
  | S3 svc => S3StorageService.save_file svc (Some identifier) (Some file_name) (PyBytes data)
  end.

Definition get_file (b : StorageService) (identifier file_name : string) : M world bytes :=
  match b with
  | Local svc => LocalStorageService.get_file svc identifier file_name
  | S3 svc => S3StorageService.get_file svc (Some identifier) (Some file_name)
  end.

Definition list_files (b : StorageService) (identifier : string) : M world (list string) :=
  match b with
  | Local svc => LocalStorageService.list_files svc identifier
  | S3 svc => S3StorageService.list_files svc (Some identifier)
  end.

Definition delete_file (b : StorageService) (identifier file_name : string) : M world unit :=
  match b with
  | Local svc => LocalStorageService.delete_file svc identifier file_name
  | S3 svc => S3StorageService.delete_file svc (Some identifier) (Some file_name)
  end.

Definition get_file_size (dir_size : path → nat) (b : StorageService)
    (identifier file_name : string) : M world nat :=
  match b with
  | Local svc => LocalStorageService.get_file_size dir_size svc identifier file_name
  | S3 svc => S3StorageService.get_file_size svc (Some identifier) (Some file_name)
  end.

(** [build_full_path]: the local backend overrides the method itself, the
    object-storage backend inherits it and supplies [_build_path]. *)
Definition build_full_path (b : StorageService) (identifier file_name : string) : string :=
  match b with
  | Local svc => LocalStorageService.build_full_path svc identifier file_name
  | S3 svc => S3StorageService._build_path svc (Some identifier) (Some file_name)
  end.

(** ** Construction of a service

    The object under construction is a record of its attributes, [None]
    while unassigned.  [ready] starts out false: no statement has set it yet
    (the flag's class-level default lives in the [Service] base class of
    lfx, outside these files).  The constructor runs in the same monad over
    a state that also keeps the object after each assignment, so that the
    intermediate states can be talked about. *)

Record Settings := {
  config_dir : string;
  s3_bucket_name : option string;
  s3_region_name : option string;
  s3_aws_access_key_id : option (option string);
  s3_aws_secret_access_key : option (option string)
}.

Record SettingsService := { settings : Settings }.

Inductive SessionService := the_session_service.

Record instance := {
  attr_settings_service : option SettingsService;
  attr_session_service : option SessionService;
  attr_data_dir : option path;
  ready : bool;
  attr_bucket : option string;
  attr_s3_client : option boto3.client
}.

Definition blank : instance :=
  {| attr_settings_service := None; attr_session_service := None;
     attr_data_dir := None; ready := false;
     attr_bucket := None; attr_s3_client := None |}.

Record ctor := { self : instance; history : list instance }.

Definition assign (f : instance → instance) : M ctor unit := λ c,
  let o := f (self c) in (Ok tt, {| self := o; history := history c ++ [o] |}).

Definition lift_result {A} (r : result A) : M ctor A := λ c, (r, c).

(** [anyio.Path(s)]; a relative path is taken from the root. *)
Definition Path_of (s : string) : path := components s.

(** [getattr(obj, name, default)] on an attribute that may be absent *)
Definition getattr {A} (attribute : option A) (dflt : A) : A := default dflt attribute.

Module StorageService_base.
Definition set_ready : M ctor unit :=
  assign (λ o, {| attr_settings_service := attr_settings_service o;
                  attr_session_service := attr_session_service o;
                  attr_data_dir := attr_data_dir o; ready := true;
                  attr_bucket := attr_bucket o; attr_s3_client := attr_s3_client o |}).

Definition __init__ (session_service : SessionService) (settings_service : SettingsService)
  : M ctor unit :=
  assign (λ o, {| attr_settings_service := Some settings_service;
                  attr_session_service := attr_session_service o;
                  attr_data_dir := attr_data_dir o; ready := ready o;
                  attr_bucket := attr_bucket o; attr_s3_client := attr_s3_client o |}) ;;
  assign (λ o, {| attr_settings_service := attr_settings_service o;
                  attr_session_service := Some session_service;
                  attr_data_dir := attr_data_dir o; ready := ready o;
                  attr_bucket := attr_bucket o; attr_s3_client := attr_s3_client o |}) ;;
  assign (λ o, {| attr_settings_service := attr_settings_service o;
                  attr_session_service := attr_session_service o;
                  attr_data_dir := Some (Path_of (config_dir (settings settings_service)));
                  ready := ready o;
                  attr_bucket := attr_bucket o; attr_s3_client := attr_s3_client o |}) ;;
  set_ready.
End StorageService_base.

Definition LocalStorageService__init__
    (session_service : SessionService) (settings_service : SettingsService) : M ctor unit :=
  StorageService_base.__init__ session_service settings_service ;;
  StorageService_base.set_ready.

Section S3Construction.
(** The two constants of [lfx.services.settings.constants], the process
    environment and the SDK's client factory are not in these files. *)
Variables DEFAULT_S3_BUCKET_NAME DEFAULT_S3_REGION_NAME : string.
Variable getenv : string → option string.
Variable boto3_client : boto3.client → result boto3.client.

(** The two [logger.info] calls of the constructor are left out: they do
    not touch the object. *)
Definition S3StorageService__init__
    (session_service : SessionService) (settings_service : SettingsService) : M ctor unit :=
  StorageService_base.__init__ session_service settings_service ;;
  let cfg := settings settings_service in
  assign (λ o, {| attr_settings_service := attr_settings_service o;
                  attr_session_service := attr_session_service o;
                  attr_data_dir := attr_data_dir o; ready := ready o;
                  attr_bucket := Some (getattr (s3_bucket_name cfg) DEFAULT_S3_BUCKET_NAME);
                  attr_s3_client := attr_s3_client o |}) ;;
  let s3_region := getattr (s3_region_name cfg) DEFAULT_S3_REGION_NAME in
  let s3_access_key :=
    getattr (s3_aws_access_key_id cfg) (getenv "LANGFLOW_S3_AWS_ACCESS_KEY_ID") in
  let s3_secret_key :=
    getattr (s3_aws_secret_access_key cfg) (getenv "LANGFLOW_S3_AWS_SECRET_ACCESS_KEY") in
  let client_kwargs :=
    if negb (falsy s3_access_key) && negb (falsy s3_secret_key)
    then {| boto3.region_name := Some s3_region;
            boto3.aws_access_key_id := s3_access_key;
            boto3.aws_secret_access_key := s3_secret_key |}
    else {| boto3.region_name := Some s3_region;
            boto3.aws_access_key_id := None;
            boto3.aws_secret_access_key := None |} in
  client ← lift_result (boto3_client client_kwargs);
  assign (λ o, {| attr_settings_service := attr_settings_service o;
                  attr_session_service := attr_session_service o;
                  attr_data_dir := attr_data_dir o; ready := ready o;
                  attr_bucket := attr_bucket o;
                  attr_s3_client := Some client |}) ;;
  StorageService_base.set_ready.
End S3Construction.

(** Running a constructor on a fresh object: the outcome, the object, and
    the object's successive states (the fresh one first). *)
Definition construct (init : M ctor unit) : result unit * instance * list instance :=
  let '(r, c) := init {| self := blank; history := [blank] |} in
  (r, self c, history c).

Definition outcome (init : M ctor unit) : result unit := (construct init).1.1.
Definition constructed (init : M ctor unit) : instance := (construct init).1.2.
Definition states (init : M ctor unit) : list instance := (construct init).2.

(** ** schema.py *)

Module schema.
Definition INPUT_FIELD_NAME : string := "input_value".

Inductive LogType := MESSAGE | DATA | STREAM | OBJECT | ARRAY | TEXT | UNKNOWN.

Definition LogType_value (t : LogType) : string :=
  match t with
  | MESSAGE => "message" | DATA => "data" | STREAM => "stream" | OBJECT => "object"
  | ARRAY => "array" | TEXT => "text" | UNKNOWN => "unknown"
  end.

(** [LogType(s)]: the member whose value is [s]; [ValueError] when there is
    none. *)
Definition LogType_members : list LogType :=
  [MESSAGE; DATA; STREAM; OBJECT; ARRAY; TEXT; UNKNOWN].

Definition LogType_call (s : string) : result LogType :=
  match List.find (λ m, bool_decide (LogType_value m = s)) LogType_members with
  | Some m => Ok m
  | None => Raise (ValueError ("'" +:+ s +:+ "' is not a valid LogType"))
  end.

(** The values a message is built from: what the JSON wire format can
    carry, as Python sees it. *)
#[warnings="-register-all"] Inductive value :=
| VNone
| VBool (b : bool)
| VInt (z : Z)
| VStr (s : string)
| VList (items : list value)
| VDict (entries : list (string * value)).

Definition dict_get (entries : list (string * value)) (key : string) : option value :=
  snd <$> List.find (λ kv, bool_decide (kv.1 = key)) entries.

Definition is_str (v : option value) : bool :=
  match v with
  | Some (VStr _) => true
  | _ => false
  end.

(** [class StreamURL(TypedDict): location: str] *)
Definition is_StreamURL (v : value) : bool :=
  match v with
  | VDict d => is_str (dict_get d "location")
  | _ => false
  end.

(** [class ErrorLog(TypedDict): errorMessage: str; stackTrace: str] *)
Definition is_ErrorLog (v : value) : bool :=
  match v with
  | VDict d => is_str (dict_get d "errorMessage") && is_str (dict_get d "stackTrace")
  | _ => false
  end.

Definition is_dict (v : value) : bool := match v with VDict _ => true | _ => false end.
Definition is_list (v : value) : bool := match v with VList _ => true | _ => false end.

(** [message: ErrorLog | StreamURL | dict | list | str]: a value passes
    when one member of the union accepts it. *)
Definition message_ok (v : value) : bool :=
  is_ErrorLog v || is_StreamURL v || is_dict v || is_list v || is_str (Some v).

Record OutputValue := { message : value; type : string }.

Section Validation.
(** What the validation library returns for a dict that [ErrorLog] or
    [StreamURL] accepts is the library's choice among the members of the
    union that accept it: the dict itself when it settles on [dict], the
    dict cut down to the declared keys when it settles on the record.  The
    rule has changed between releases of the library and is not in these
    files; [typed_dict_view] stands for it. *)
Variable typed_dict_view : value → value.

(** The value a validated message is stored as; a list, a string and a dict
    that neither record accepts are stored as they come. *)
Definition validated_message (message : value) : value :=
  if is_ErrorLog message || is_StreamURL message then typed_dict_view message
  else message.

(** [OutputValue(message=..., type=...)]: each field is validated, the
    error lists the fields that failed. *)
Definition OutputValue__init__ (message type : value) : result OutputValue :=
  let bad := ((if message_ok message then [] else ["message"])
              ++ (if is_str (Some type) then [] else ["type"]))%list in
  match bad, type with
  | [], VStr t => Ok {| message := validated_message message; type := t |}
  | _, _ => Raise (ValidationError bad)
  end.
End Validation.
End schema.

(** The provider answers the service's requests: the SDK admits the bucket
    name, the requests can be signed and reach the service, the service
    reports no error of its own, and the configured bucket exists. *)
Definition serving (svc : S3StorageService.t) (w : world) : Prop :=
  boto3.valid_bucket_name (cloud w) (S3StorageService.bucket svc) = true
  ∧ boto3.can_sign (S3StorageService.s3_client svc) (cloud w) = true
  ∧ outage (cloud w) = None
  ∧ fault (cloud w) = None
  ∧ is_Some (buckets (cloud w) !! S3StorageService.bucket svc).

(** The objects of the service's bucket *)
Definition objects (svc : S3StorageService.t) (w : world) : gmap string bytes :=
  default ∅ (buckets (cloud w) !! S3StorageService.bucket svc).

Definition key_of (identifier file_name : string) : string :=
  "tenant-" +:+ identifier +:+ "/" +:+ file_name.

(** ** Vocabulary of the error taxonomy *)

(** InvalidInput: a required argument is missing or ill-typed. *)
Definition InvalidInput (e : exn) : Prop :=
  match e with
  | ValueError _ | TypeError _ => True
  | _ => False
  end.

(** NotFound: the operating system's or the module's own
    [FileNotFoundError], or the provider's answer that the key is absent. *)
Definition NotFound (e : exn) : Prop :=
  match e with
  | FileNotFoundError _ => True
  | ClientError (Some r) _ => Code r = Some "NoSuchKey"
  | _ => False
  end.

Definition is_bytes (v : pyval) : bool :=
  match v with
  | PyBytes _ => true
  | _ => false
  end.

(** A call is rejected on its arguments: it raises InvalidInput and the
    provider has seen nothing of it. *)
Definition rejected {A} (m : M world A) (w : world) : Prop :=
  ∃ e w', m w = (Raise e, w') ∧ InvalidInput e ∧ cloud w' = cloud w.

(** ** Sample worlds *)

Definition sample_fs : filesystem :=
  {| nodes := {[ ["data"] := Dir; ["data"; "notes"] := File [x6f; x6b] ]};
     readonly := ∅ |}.

Definition sample_cloud : provider :=
  {| credentials := true; buckets := {[ "langflow" := ∅ ]}; fault := None;
     outage := None; access_points := ∅; calls := [] |}.

Definition sample_world : world :=
  {| fs := sample_fs; cloud := sample_cloud; log := [] |}.

Definition sample_local : LocalStorageService.t :=
  {| LocalStorageService.data_dir := ["data"] |}.

Definition sample_s3 : S3StorageService.t :=
  {| S3StorageService.bucket := "langflow";
     S3StorageService.s3_client :=
       {| boto3.region_name := Some "us-east-1";
          boto3.aws_access_key_id := None;
          boto3.aws_secret_access_key := None |} |}.


Definition hello : bytes := [x68; x65; x6c; x6c; x6f].
Definition bye : bytes := [x62; x79; x65].


(** ** Stored files *)



Definition fails_with {A} (class : exn → Prop) (m : M world A) (w : world) : Prop :=
  ∃ e w', m w = (Raise e, w') ∧ class e.



(** ** The failure paths of the local [save_file] *)

(** The guarded block of [LocalStorageService.save_file]: open, write,
    report. *)
Definition local_write_step (file_path : path) (identifier file_name : string) (data : bytes)
  : M world unit :=
  f ← aiofile.open_wb file_path;
  aiofile.write f data ;;
  logger.info ("File " +:+ file_name +:+ " saved successfully with identifier "
                 +:+ identifier +:+ ".").

(** The record [logger.exception] writes in the handler. *)
Definition save_error_record (identifier file_name : string) (e : exn) : log_record :=
  {| lvl := ERROR;
     text := "Error saving file " +:+ file_name +:+ " with identifier " +:+ identifier;
     exc_info := Some e |}.

(** Whenever the run raises, the error was logged last, with the pair. *)
Definition logs_before_raising (identifier file_name : string) (m : M world unit) (w : world)
  : Prop :=
  ∀ e w', m w = (Raise e, w') →
          ∃ earlier, log w' = (earlier ++ [save_error_record identifier file_name e])%list.

(** ** The readiness flag along a construction *)

(** Once up, the flag stays up in every later state. *)
Definition one_way (h : list instance) : Prop :=
  ∀ (i j : nat) a b, (i ≤ j)%nat → h !! i = Some a → h !! j = Some b → ready a = true → ready b = true.

(** What the shared constructor assigns. *)
Definition base_built (o : instance) : Prop :=
  is_Some (attr_settings_service o) ∧ is_Some (attr_session_service o)
  ∧ is_Some (attr_data_dir o).

(** What the object-storage constructor assigns on top. *)
Definition s3_built (o : instance) : Prop :=
  base_built o ∧ is_Some (attr_bucket o) ∧ is_Some (attr_s3_client o).

(** The flag is up only in states where the backend is fully built. *)
Definition ready_only_when_built (built : instance → Prop) (h : list instance) : Prop :=
  ∀ o, o ∈ h → ready o = true → built o.

Definition sample_settings : SettingsService :=
  {| settings := {| config_dir := "/data"; s3_bucket_name := Some "langflow";
                    s3_region_name := None; s3_aws_access_key_id := None;
                    s3_aws_secret_access_key := None |} |}.

(** A client factory that accepts every configuration, and one that
    refuses every configuration. *)
Definition accepting_factory (kwargs : boto3.client) : result boto3.client := Ok kwargs.
Definition refusing_factory (kwargs : boto3.client) : result boto3.client :=
  Raise (ValueError "Invalid endpoint").

Definition sample_s3_init (factory : boto3.client → result boto3.client) : M ctor unit :=
  S3StorageService__init__ "langflow" "us-east-1" (λ _, None) factory
    the_session_service sample_settings.

(** What holds of the flag along a construction: it is never taken down, it
    goes up only once the shared constructor has assigned its attributes,
    and a construction that succeeds ends with the flag up and the backend
    built. *)
Definition flag_discipline (built : instance → Prop) (init : M ctor unit) : Prop :=
  one_way (states init)
  ∧ ready_only_when_built base_built (states init)
  ∧ (outcome init = Ok tt → ready (constructed init) = true ∧ built (constructed init)).

(** Where the flag goes up: it is down in the fresh object and after each
    of the shared constructor's three assignments, and up in the state that
    the shared constructor's last statement leaves, in which the bucket and
    the client are still unassigned. *)
Definition raised_by_base (init : M ctor unit) : Prop :=
  (∀ (i : nat) o, (i < 4)%nat → states init !! i = Some o → ready o = false)
  ∧ ∃ o, states init !! 4%nat = Some o
         ∧ ready o = true ∧ base_built o
         ∧ attr_bucket o = None ∧ attr_s3_client o = None.

(** ** The five permitted shapes of a message, in the words of the
    specification *)

Inductive permitted_shape : schema.value → Prop :=
| shape_ErrorLog entries errorMessage stackTrace :
    schema.dict_get entries "errorMessage" = Some (schema.VStr errorMessage) →
    schema.dict_get entries "stackTrace" = Some (schema.VStr stackTrace) →
    permitted_shape (schema.VDict entries)
| shape_StreamURL entries location :
    schema.dict_get entries "location" = Some (schema.VStr location) →
    permitted_shape (schema.VDict entries)
| shape_map entries : permitted_shape (schema.VDict entries)
| shape_sequence items : permitted_shape (schema.VList items)
| shape_string s : permitted_shape (schema.VStr s).

(** ** Addresses

    Where a pair lives in the backing store. *)

Inductive address :=
| LocalPath (p : path)
| ObjectKey (bucket key : string).

(** An address is taken literally when it names its node or object as it
    is written: every key does, and a path does when none of its components
    is [".."], which the operating system would resolve to the directory
    above whereas the map of nodes looks the path up as it stands. *)
Definition literal (a : address) : Prop :=
  match a with
  | LocalPath p => ".." ∉ p
  | ObjectKey _ _ => True
  end.

Definition address_of (b : StorageService) (identifier file_name : string) : address :=
  match b with
  | Local svc => LocalPath (LocalStorageService.data_dir svc </> identifier </> file_name)
  | S3 svc => ObjectKey (S3StorageService.bucket svc) (key_of identifier file_name)
  end.

(** Directory creation only ever adds directories at free paths. *)
Definition extends_with_dirs (w w' : world) : Prop :=
  cloud w' = cloud w ∧ log w' = log w ∧ readonly (fs w') = readonly (fs w)
  ∧ (∀ q n, node_at (fs w) q = Some n → node_at (fs w') q = Some n)
  ∧ (∀ q c, node_at (fs w') q = Some (File c) → node_at (fs w) q = Some (File c)).

(** The pair's content in the backing store, as [get_file] will find it. *)
Definition stored (b : StorageService) (identifier file_name : string) (data : bytes)
    (w : world) : Prop :=
  match b with
  | Local svc =>
      node_at (fs w) (LocalStorageService.data_dir svc </> identifier </> file_name)
      = Some (File data)
  | S3 svc =>
      identifier ≠ "" ∧ file_name ≠ "" ∧ serving svc w
      ∧ objects svc w !! key_of identifier file_name = Some data
  end.

(** What the provider answers to a request it does not serve: the
    exception [boto3.request] raises for the operation [op], [None] when
    the request goes through. *)
Definition provider_refusal (svc : S3StorageService.t) (w : world) (op : string) : option exn :=
  if negb (boto3.valid_bucket_name (cloud w) (S3StorageService.bucket svc)) then
    Some (BotoCoreError "ParamValidationError")
  else if negb (boto3.can_sign (S3StorageService.s3_client svc) (cloud w)) then
    Some NoCredentialsError
  else match outage (cloud w) with
       | Some kind => Some (BotoCoreError kind)
       | None =>
           match fault (cloud w) with
           | Some r => Some (ClientError (Some r) op)
           | None =>
               match buckets (cloud w) !! S3StorageService.bucket svc with
               | None => Some (ClientError (Some boto3.no_such_bucket) op)
               | Some _ => None
               end
           end
       end.

(** How the operations other than [save_file] pass a provider error on:
    the same exception, nothing stored changes, and a log record (with the
    exception attached) only for a [ClientError]. *)
Definition passes_on {A} (e : exn) (m : M world A) (w : world) : Prop :=
  ∃ w', m w = (Raise e, w')
        ∧ fs w' = fs w ∧ buckets (cloud w') = buckets (cloud w)
        ∧ match e with
          | ClientError _ _ =>
              ∃ entry, log w' = (log w ++ [entry])%list
                       ∧ lvl entry = ERROR ∧ exc_info entry = Some e
          | _ => log w' = log w
          end.

(** The provider stands as before: the same credentials, faults and
    admitted names; only the bucket contents and the trace may differ. *)
Definition same_standing (w w' : world) : Prop :=
  credentials (cloud w') = credentials (cloud w)
  ∧ fault (cloud w') = fault (cloud w)
  ∧ outage (cloud w') = outage (cloud w)
  ∧ access_points (cloud w') = access_points (cloud w).

(** Nothing stored changes. *)
Definition same_storage (w w' : world) : Prop :=
  fs w' = fs w ∧ buckets (cloud w') = buckets (cloud w).

(** A world with a tenant's files in place on both backends: a file and a
    sub-directory holding another one. *)
Definition stocked_fs : filesystem :=
  {| nodes := {[ ["data"] := Dir;
                 ["data"; "flow-1"] := Dir;
                 ["data"; "flow-1"; "a.txt"] := File hello;
                 ["data"; "flow-1"; "sub"] := Dir;
                 ["data"; "flow-1"; "sub"; "b.txt"] := File bye ]};
     readonly := ∅ |}.

Definition stocked_cloud : provider :=
  {| credentials := true;
     buckets := {[ "langflow" := {[ "tenant-flow-1/a.txt" := hello;
                                    "tenant-flow-1/sub/b.txt" := bye ]} ]};
     fault := None;
     outage := None; access_points := ∅; calls := [] |}.

Definition stocked_world : world :=
  {| fs := stocked_fs; cloud := stocked_cloud; log := [] |}.

(** A world whose provider finds no credentials. *)
Definition anonymous_world : world :=
  {| fs := sample_fs;
     cloud := {| credentials := false; buckets := {[ "langflow" := ∅ ]};
                 fault := None;
     outage := None; access_points := ∅; calls := [] |};
     log := [] |}.

(** The file system is a tree: whatever exists below the root sits in a
    directory. *)
Definition well_formed (t : filesystem) : Prop :=
  ∀ q n, q ≠ [] → nodes t !! q = Some n → node_at t (parent q) = Some Dir.

(** * Proofs *)

(** Unfolding the monad's plumbing. *)
Ltac unfold_monad :=
  unfold mbind, M_bind, bind, mret, M_ret, ret, raise, try_except,
    logger.debug, logger.info, logger.warning, logger.error, logger.exception, emit in *.

Lemma node_at_set_node_eq t p n :
  p ≠ [] → node_at (set_node p n t) p = Some n.
Proof.
  intros Hp. destruct p as [|c p]; [done|].
  cbn. apply lookup_insert_eq.
Qed.

Lemma node_at_root t : node_at t [] = Some Dir.
Proof. reflexivity. Qed.

(** Opening for writing succeeds only on a proper path and leaves an empty
    regular file there. *)
Lemma open_wb_ok p w f w' :
  aiofile.open_wb p w = (Ok f, w') →
  f = p ∧ p ≠ [] ∧ node_at (fs w') p = Some (File []) ∧ log w' = log w ∧ cloud w' = cloud w.
Proof.
  unfold aiofile.open_wb. intros H.
  assert (Hp : p ≠ []).
  { intros ->. rewrite node_at_root in H. discriminate. }
  repeat (case_match; try discriminate); simplify_eq; cbn;
    rewrite ?node_at_set_node_eq; done.
Qed.



(** Reading back a regular file. *)
Lemma local_get_file_of_file self identifier file_name data w :
  node_at (fs w) (LocalStorageService.data_dir self </> identifier </> file_name) = Some (File data) →
  LocalStorageService.get_file self identifier file_name w =
    (Ok data,
     add_log {| lvl := DEBUG;
                text := "File " +:+ file_name +:+ " retrieved successfully with identifier "
                          +:+ identifier +:+ ".";
                exc_info := None |} w).
Proof.
  intros H. unfold LocalStorageService.get_file, Path.exists_, aiofile.open_rb, aiofile.read.
  unfold_monad. rewrite H. rewrite bool_decide_true by eauto. cbn.
  rewrite H. cbn. rewrite H. done.
Qed.

Lemma request_inv c call B w r w' :
  boto3.request c call B w = (r, w') →
  w' = set_cloud (boto3.record_call call (cloud w)) w
  ∧ match r with
    | Ok objs =>
        boto3.valid_bucket_name (cloud w) B = true
        ∧ boto3.can_sign c (cloud w) = true ∧ outage (cloud w) = None
        ∧ fault (cloud w) = None ∧ buckets (cloud w) !! B = Some objs
    | Raise e =>
        (boto3.can_sign c (cloud w) = false ∧ e = NoCredentialsError)
        ∨ (boto3.valid_bucket_name (cloud w) B = true
           ∧ boto3.can_sign c (cloud w) = true ∧ outage (cloud w) = None ∧
             ∃ resp, e = ClientError (Some resp) (boto3.operation_name call)
                     ∧ (fault (cloud w) = Some resp
                        ∨ fault (cloud w) = None ∧ buckets (cloud w) !! B = None
                          ∧ resp = boto3.no_such_bucket))
        ∨ (∃ kind, e = BotoCoreError kind)
    end.
Proof.
  unfold boto3.request. intros H.
  destruct (boto3.valid_bucket_name (cloud w) B); cbn in H;
    [|simplify_eq; naive_solver].
  destruct (boto3.can_sign c (cloud w)); cbn in H; [|simplify_eq; naive_solver].
  destruct (outage (cloud w)) as [kind|]; [simplify_eq; naive_solver|].
  destruct (fault (cloud w)) as [resp|]; [|destruct (buckets (cloud w) !! B)];
    simplify_eq; naive_solver.
Qed.

Lemma request_serving svc call w :
  serving svc w →
  boto3.request (S3StorageService.s3_client svc) call (S3StorageService.bucket svc) w =
    (Ok (objects svc w), set_cloud (boto3.record_call call (cloud w)) w).
Proof.
  intros (Hv & Hs & Ho & Hf & [objs Hb]). unfold boto3.request, objects.
  rewrite Hv, Hs, Ho, Hf, Hb. done.
Qed.


(** Reading back an object that is there. *)
Lemma s3_get_file_of_object svc identifier file_name data w :
  identifier ≠ "" → file_name ≠ "" → serving svc w →
  objects svc w !! key_of identifier file_name = Some data →
  ∃ w', S3StorageService.get_file svc (Some identifier) (Some file_name) w = (Ok data, w').
Proof.
  intros Hi Hf Hs Hobj. unfold S3StorageService.get_file, falsy.
  rewrite !bool_decide_false by done. cbn [orb fmt].
  unfold boto3.get_object. unfold_monad.
  rewrite request_serving by done. cbv zeta. unfold key_of in Hobj.
  rewrite Hobj. eauto.
Qed.


Lemma local_list_files_missing svc identifier w :
  node_at (fs w) (LocalStorageService.data_dir svc </> identifier) ≠ Some Dir →
  LocalStorageService.list_files svc identifier w =
    (Raise (FileNotFoundError ("Tenant " +:+ identifier +:+ " directory does not exist.")),
     add_log {| lvl := WARNING;
                text := "Tenant " +:+ identifier +:+ " directory does not exist.";
                exc_info := None |} w).
Proof.
  intros Hdir. unfold LocalStorageService.list_files, Path.exists_, Path.is_dir.
  unfold_monad.
  destruct (node_at (fs w) _) as [[c|]|] eqn:Hn; [| done |].
  - rewrite bool_decide_true by eauto. cbn. by rewrite Hn.
  - rewrite bool_decide_false by (by intros [? ?]). done.
Qed.




(** A call that stops at the argument check. *)
Lemma rejected_raise {A} (e : exn) (w : world) :
  InvalidInput e → rejected (raise e : M world A) w.
Proof. intros He. by exists e, w. Qed.

Lemma s3_save_file_rejected svc identifier file_name data w :
  falsy identifier = true ∨ falsy file_name = true ∨ is_bytes data = false →
  rejected (S3StorageService.save_file svc identifier file_name data) w.
Proof.
  intros Hmissing. unfold S3StorageService.save_file.
  destruct (falsy identifier) eqn:Hi; [by apply rejected_raise|].
  destruct (falsy file_name) eqn:Hf; [by apply rejected_raise|].
  destruct data as [|body|s]; cbn [is_None orb].
  - by apply rejected_raise.
  - destruct Hmissing as [?|[?|?]]; discriminate.
  - unfold_monad. by eexists _, _.
Qed.

(** C3. Every operation of the object-storage backend called with a missing
    identifier or file name, and [save_file] also with missing or non-byte
    data, fails with InvalidInput, and the provider has not been called. *)
Theorem s3_rejects_missing_arguments
    (svc : S3StorageService.t) (identifier file_name : option string) (data : pyval)
    (w : world) :
  (falsy identifier = true ∨ falsy file_name = true ∨ is_bytes data = false →
     rejected (S3StorageService.save_file svc identifier file_name data) w)
  ∧ (falsy identifier = true ∨ falsy file_name = true →
       rejected (S3StorageService.get_file svc identifier file_name) w
       ∧ rejected (S3StorageService.get_file_size svc identifier file_name) w
       ∧ rejected (S3StorageService.delete_file svc identifier file_name) w)
  ∧ (falsy identifier = true →
       rejected (S3StorageService.list_files svc identifier) w).
Proof.
  split_and!.
  - apply s3_save_file_rejected.
  - intros Hmissing.
    assert (Hor : falsy identifier || falsy file_name = true).
    { apply orb_true_iff. done. }
    unfold S3StorageService.get_file, S3StorageService.get_file_size,
      S3StorageService.delete_file. rewrite Hor.
    split_and!; by apply rejected_raise.
  - intros Hi. unfold S3StorageService.list_files. rewrite Hi.
    by apply rejected_raise.
Qed.

Lemma s3_rejects_missing_arguments_witness :
  rejected (S3StorageService.save_file sample_s3 (Some "flow-1") (Some "a.txt") (PyStr "text"))
    sample_world
  ∧ rejected (S3StorageService.get_file sample_s3 None (Some "a.txt")) sample_world
  ∧ rejected (S3StorageService.list_files sample_s3 (Some "")) sample_world.
Proof.
  pose proof (s3_rejects_missing_arguments sample_s3 (Some "flow-1") (Some "a.txt")
                (PyStr "text") sample_world) as (Hsave & _ & _).
  pose proof (s3_rejects_missing_arguments sample_s3 None (Some "a.txt")
                PyNone sample_world) as (_ & Hget & _).
  pose proof (s3_rejects_missing_arguments sample_s3 (Some "") None
                PyNone sample_world) as (_ & _ & Hlist).
  split_and!.
  - apply Hsave. right. right. reflexivity.
  - apply Hget. left. reflexivity.
  - apply Hlist. reflexivity.
Defined.

(** What the provider is asked and answers when [save_file] gets past its
    argument checks with a byte payload. *)
Lemma s3_save_file_put svc identifier file_name body w :
  identifier ≠ "" → file_name ≠ "" →
  S3StorageService.save_file svc (Some identifier) (Some file_name) (PyBytes body) w =
    match boto3.put_object (S3StorageService.s3_client svc) (S3StorageService.bucket svc)
            (key_of identifier file_name) body w with
    | (Ok _, w1) =>
        (Ok tt,
         add_log {| lvl := INFO;
                    text := "File " +:+ file_name +:+ " saved successfully in tenant "
                              +:+ identifier +:+ ".";
                    exc_info := None |} w1)
    | (Raise NoCredentialsError, w1) =>
        (Raise NoCredentialsError,
         add_log {| lvl := ERROR; text := "Credentials not available for AWS S3.";
                    exc_info := Some NoCredentialsError |} w1)
    | (Raise (ClientError response op as e), w1) =>
        let msg := "S3 bucket '" +:+ S3StorageService.bucket svc
                   +:+ "' does not exist. Please create the bucket or check your configuration." in
        if bool_decide (default "Unknown" (response ≫= Code) = "NoSuchBucket") then
          (Raise (RuntimeError msg e),
           add_log {| lvl := ERROR; text := msg; exc_info := Some e |} w1)
        else
          (Raise e,
           add_log {| lvl := ERROR;
                      text := "Error saving file " +:+ file_name +:+ " in tenant "
                                +:+ identifier +:+ ": "
                                +:+ default "Unknown" (response ≫= Code) +:+ " - "
                                +:+ default (boto3.ClientError_str response op)
                                      (response ≫= Message);
                      exc_info := Some e |} w1)
    | (Raise e, w1) => (Raise e, w1)
    end.
Proof.
  intros Hi Hf. unfold S3StorageService.save_file, falsy.
  rewrite !bool_decide_false by done. cbn [orb is_None fmt].
  unfold key_of. unfold_monad.
  destruct (boto3.put_object _ _ _ body w) as [[[]|e] w1]; [done|].
  destruct e; try done. by case_bool_decide.
Qed.

Lemma put_object_calls c Bucket Key Body w r w' :
  boto3.put_object c Bucket Key Body w = (r, w') →
  calls (cloud w') = (calls (cloud w) ++ [PutObject Bucket Key Body])%list
  ∧ log w' = log w
  ∧ match r with
    | Raise NoCredentialsError | Raise (ClientError _ _) | Raise (BotoCoreError _)
    | Ok _ => True
    | Raise _ => False
    end.
Proof.
  unfold boto3.put_object, boto3.store. unfold_monad.
  destruct (boto3.request _ _ _ w) as [[objs|e] w1] eqn:Hreq;
    apply request_inv in Hreq as (-> & Hr); intros [= <- <-]; [done|].
  split_and!; [done..|].
  by destruct Hr as [[_ ->]|[(_ & _ & _ & resp & -> & _)|[kind ->]]].
Qed.

(** C10. [save_file] on the object-storage backend takes the empty payload:
    with a present identifier and file name it performs the put and raises
    no InvalidInput, whereas an empty identifier or file name is rejected
    as missing. *)
Theorem s3_save_file_accepts_empty_payload
    (svc : S3StorageService.t) (identifier file_name : string) (w : world) :
  identifier ≠ "" → file_name ≠ "" →
  (∃ r w', S3StorageService.save_file svc (Some identifier) (Some file_name) (PyBytes []) w
           = (r, w')
           ∧ calls (cloud w') =
               (calls (cloud w)
                  ++ [PutObject (S3StorageService.bucket svc) (key_of identifier file_name) []])%list
           ∧ (∀ e, r = Raise e → ¬ InvalidInput e)
           ∧ (serving svc w →
                r = Ok tt ∧ objects svc w' !! key_of identifier file_name = Some []))
  ∧ rejected (S3StorageService.save_file svc (Some "") (Some file_name) (PyBytes [])) w
  ∧ rejected (S3StorageService.save_file svc (Some identifier) (Some "") (PyBytes [])) w.
Proof.
  intros Hi Hf. split_and!.
  - destruct (S3StorageService.save_file svc (Some identifier) (Some file_name) (PyBytes []) w)
      as [r w'] eqn:Hsave.
    exists r, w'. split; [done|].
    pose proof Hsave as Hput. rewrite s3_save_file_put in Hput by done.
    destruct (boto3.put_object _ _ _ [] w) as [r1 w1] eqn:Hcall.
    pose proof (put_object_calls _ _ _ _ _ _ _ Hcall) as (Hcalls & _ & Hkind).
    split_and!.
    + destruct r1 as [[]|[]]; try done; cbv zeta in Hput;
        try case_bool_decide; by simplify_eq.
    + intros e ->. destruct r1 as [[]|[]]; try done; cbv zeta in Hput;
        try case_bool_decide; simplify_eq; by intros [].
    + intros Hs. clear Hput Hcall Hcalls Hkind.
      revert Hsave. unfold S3StorageService.save_file, falsy.
      rewrite !bool_decide_false by done. cbn [orb is_None fmt].
      unfold boto3.put_object, boto3.store. unfold_monad.
      rewrite request_serving by done. intros [= <- <-]. split; [done|].
      unfold objects, key_of. cbn. rewrite lookup_insert_eq. cbn. apply lookup_insert_eq.
  - by apply s3_save_file_rejected; left.
  - by apply s3_save_file_rejected; right; left.
Qed.

Lemma s3_save_file_accepts_empty_payload_witness :
  ∃ r w', S3StorageService.save_file sample_s3 (Some "flow-1") (Some "a.txt") (PyBytes [])
            sample_world = (r, w')
          ∧ calls (cloud w') =
              (calls (cloud sample_world)
                 ++ [PutObject (S3StorageService.bucket sample_s3) (key_of "flow-1" "a.txt") []])%list
          ∧ (∀ e, r = Raise e → ¬ InvalidInput e)
          ∧ (serving sample_s3 sample_world →
               r = Ok tt ∧ objects sample_s3 w' !! key_of "flow-1" "a.txt" = Some []).
Proof.
  refine (proj1 (s3_save_file_accepts_empty_payload sample_s3 "flow-1" "a.txt" sample_world _ _));
    vm_compute; discriminate.
Defined.



Lemma local_get_file_absent svc identifier file_name w :
  node_at (fs w) (LocalStorageService.data_dir svc </> identifier </> file_name) = None →
  LocalStorageService.get_file svc identifier file_name w =
    (Raise (FileNotFoundError ("File " +:+ file_name +:+ " not found with identifier "
                                 +:+ identifier)),
     add_log {| lvl := WARNING;
                text := "File " +:+ file_name +:+ " not found with identifier "
                          +:+ identifier +:+ ".";
                exc_info := None |} w).
Proof.
  intros Hn. unfold LocalStorageService.get_file, Path.exists_. unfold_monad.
  rewrite Hn. rewrite bool_decide_false by (by intros [? ?]). done.
Qed.

Lemma s3_get_file_absent svc identifier file_name w :
  identifier ≠ "" → file_name ≠ "" → serving svc w →
  objects svc w !! key_of identifier file_name = None →
  S3StorageService.get_file svc (Some identifier) (Some file_name) w =
    (Raise (ClientError (Some boto3.no_such_key) "GetObject"),
     add_log {| lvl := ERROR;
                text := "Error retrieving file " +:+ file_name +:+ " from tenant "
                          +:+ identifier;
                exc_info := Some (ClientError (Some boto3.no_such_key) "GetObject") |}
       (set_cloud (boto3.record_call
                     (GetObject (S3StorageService.bucket svc) (key_of identifier file_name))
                     (cloud w)) w)).
Proof.
  intros Hi Hf Hs Hobj. unfold S3StorageService.get_file, falsy.
  rewrite !bool_decide_false by done. cbn [orb fmt].
  unfold boto3.get_object. unfold_monad.
  rewrite request_serving by done. cbv zeta. unfold key_of in *.
  rewrite Hobj. done.
Qed.









Lemma os_mkdir_log p w r w' : os.mkdir p w = (r, w') → log w' = log w.
Proof.
  unfold os.mkdir. intros H.
  repeat (case_match; simplify_eq); done.
Qed.

Lemma mkdir_single_log exist_ok p w r w' :
  Path.mkdir_single exist_ok p w = (r, w') → log w' = log w.
Proof.
  unfold Path.mkdir_single, Path.is_dir. unfold_monad.
  destruct (os.mkdir p w) as [[[]|e] w1] eqn:Hmk; apply os_mkdir_log in Hmk.
  - by intros [= <- <-].
  - intros H. repeat (case_match; simplify_eq); done.
Qed.

Lemma mkdir_parents_rev_log exist_ok rp w r w' :
  Path.mkdir_parents_rev exist_ok rp w = (r, w') → log w' = log w.
Proof.
  revert exist_ok w r w'. induction rp as [|c rp IH]; intros exist_ok w r w';
    cbn [Path.mkdir_parents_rev]; unfold Path.is_dir; unfold_monad;
    destruct (os.mkdir _ w) as [[[]|e] w1] eqn:Hmk; apply os_mkdir_log in Hmk.
  - by intros [= <- <-].
  - intros H. repeat (case_match; simplify_eq); done.
  - by intros [= <- <-].
  - destruct e; try (intros H; repeat (case_match; simplify_eq); done).
    destruct (Path.mkdir_parents_rev true rp w1) as [[[]|e] w2] eqn:Hrec;
      apply IH in Hrec.
    + intros Hsingle%mkdir_single_log. congruence.
    + intros [= <- <-]. congruence.
Qed.

Lemma Path_mkdir_log parents exist_ok p w r w' :
  Path.mkdir parents exist_ok p w = (r, w') → log w' = log w.
Proof.
  unfold Path.mkdir. destruct parents;
    eauto using mkdir_parents_rev_log, mkdir_single_log.
Qed.

Lemma local_write_step_raise_log file_path identifier file_name data w e w' :
  local_write_step file_path identifier file_name data w = (Raise e, w') →
  log w' = log w.
Proof.
  unfold local_write_step, aiofile.open_wb, aiofile.write. unfold_monad.
  intros H. repeat (case_match; simplify_eq); done.
Qed.

(** C5, as stated, fails: when the identifier's path is taken by a regular
    file, directory creation raises [FileExistsError] before the guarded
    block is entered, and [save_file] raises it with nothing logged. *)
Lemma save_file_mkdir_failure_not_logged :
  LocalStorageService.save_file sample_local "notes" "a.txt" hello sample_world
    = (Raise (FileExistsError "/data/notes"), sample_world)
  ∧ log sample_world = []
  ∧ ¬ logs_before_raising "notes" "a.txt"
        (LocalStorageService.save_file sample_local "notes" "a.txt" hello) sample_world.
Proof.
  assert (Hrun : LocalStorageService.save_file sample_local "notes" "a.txt" hello sample_world
                 = (Raise (FileExistsError "/data/notes"), sample_world))
    by (vm_compute; reflexivity).
  split_and!; [exact Hrun | reflexivity |].
  intros Hlogged. destruct (Hlogged _ _ Hrun) as [earlier Hlog].
  cbn in Hlog. by destruct earlier.
Qed.

(** C5, amended. A failing local [save_file] re-raises the file-system
    error unchanged.  If the error comes from the guarded block (opening or
    writing the file), it is logged first, with the file name and the
    identifier; if it comes from the directory creation, which runs before
    the guarded block, nothing is logged. *)
Theorem local_save_file_failure
    (svc : LocalStorageService.t) (identifier file_name : string) (data : bytes)
    (w w' : world) (e : exn) :
  LocalStorageService.save_file svc identifier file_name data w = (Raise e, w') →
  let folder_path := LocalStorageService.data_dir svc </> identifier in
  (Path.mkdir true true folder_path w = (Raise e, w') ∧ log w' = log w)
  ∨ (∃ w1 w2,
       Path.mkdir true true folder_path w = (Ok tt, w1)
       ∧ local_write_step (folder_path </> file_name) identifier file_name data w1
           = (Raise e, w2)
       ∧ w' = add_log (save_error_record identifier file_name e) w2
       ∧ log w' = (log w ++ [save_error_record identifier file_name e])%list).
Proof.
  intros Hsave folder_path. revert Hsave.
  unfold LocalStorageService.save_file. fold folder_path.
  change (f ← aiofile.open_wb (folder_path </> file_name);
          aiofile.write f data ;;
          logger.info ("File " +:+ file_name +:+ " saved successfully with identifier "
                         +:+ identifier +:+ "."))
    with (local_write_step (folder_path </> file_name) identifier file_name data).
  unfold mbind at 1, M_bind at 1, bind at 1, try_except.
  destruct (Path.mkdir true true folder_path w) as [[[]|e1] w1] eqn:Hmk.
  - destruct (local_write_step _ _ _ _ w1) as [[[]|e2] w2] eqn:Hstep; [discriminate|].
    unfold_monad. intros [= <- <-]. right. exists w1, w2. split_and!; [done..|].
    apply Path_mkdir_log in Hmk. apply local_write_step_raise_log in Hstep.
    cbn. by rewrite Hstep, Hmk.
  - intros [= <- <-]. left. split; [done|]. by eapply Path_mkdir_log.
Qed.

Lemma local_save_file_failure_witness :
  ∃ w', LocalStorageService.save_file sample_local "flow-1" "" hello sample_world
          = (Raise (IsADirectoryError "/data/flow-1"), w')
        ∧ log w' = [save_error_record "flow-1" "" (IsADirectoryError "/data/flow-1")].
Proof.
  eexists. split; [vm_compute; reflexivity|].
  destruct (local_save_file_failure sample_local "flow-1" "" hello sample_world _
              (IsADirectoryError "/data/flow-1") ltac:(vm_compute; reflexivity))
    as [[Hmk _]|(w1 & w2 & _ & _ & _ & Hlog)].
  - vm_compute in Hmk. discriminate.
  - exact Hlog.
Defined.

Lemma local_init_flags session_service settings_service :
  ready <$> states (LocalStorageService__init__ session_service settings_service)
  = [false; false; false; false; true; true].
Proof. reflexivity. Qed.

Lemma s3_init_flags bucket region getenv factory session_service settings_service :
  ready <$> states (S3StorageService__init__ bucket region getenv factory
                      session_service settings_service)
  = match outcome (S3StorageService__init__ bucket region getenv factory
                     session_service settings_service) with
    | Ok _ => [false; false; false; false; true; true; true; true]
    | Raise _ => [false; false; false; false; true; true]
    end.
Proof.
  unfold S3StorageService__init__. cbv zeta.
  destruct (factory _) as [client|e]; reflexivity.
Qed.

Lemma one_way_of_flags (h : list instance) (flags : list bool) :
  ready <$> h = flags →
  (∀ i j : nat, (i ≤ j)%nat → flags !! i = Some true → is_Some (flags !! j) → flags !! j = Some true) →
  one_way h.
Proof.
  intros Hflags Hmono i j a b Hij Ha Hb Hready.
  assert (Hfa : flags !! i = Some true).
  { rewrite <- Hflags, list_lookup_fmap, Ha. cbn. by rewrite Hready. }
  assert (Hfb : flags !! j = Some (ready b)).
  { rewrite <- Hflags, list_lookup_fmap, Hb. done. }
  specialize (Hmono i j Hij Hfa). rewrite Hfb in Hmono.
  by injection (Hmono (mk_is_Some _ _ eq_refl)).
Qed.

Lemma flags_monotone (n : nat) (i j : nat) :
  (i ≤ j)%nat →
  (replicate 4 false ++ replicate n true)%list !! i = Some true →
  is_Some ((replicate 4 false ++ replicate n true)%list !! j) →
  (replicate 4 false ++ replicate n true)%list !! j = Some true.
Proof.
  intros Hij Hi [b Hj].
  destruct (decide (i < 4)%nat) as [Hlt|Hge].
  - rewrite lookup_app_l in Hi by (rewrite length_replicate; lia).
    apply lookup_replicate in Hi as [? _]. done.
  - rewrite lookup_app_r in Hj |- * by (rewrite length_replicate; lia).
    apply lookup_replicate in Hj as [-> Hlen].
    by apply lookup_replicate_2.
Qed.

(** Going through the states of a construction one by one. *)
Ltac each_state H :=
  apply list_elem_of_In in H; vm_compute in H;
  repeat (destruct H as [<-|H]); [..|destruct H].

Lemma local_init_base_built session_service settings_service :
  ready_only_when_built base_built
    (states (LocalStorageService__init__ session_service settings_service)).
Proof.
  intros o Ho Hready.
  each_state Ho; try discriminate Hready; repeat econstructor.
Qed.

Lemma s3_init_base_built bucket region getenv factory session_service settings_service :
  ready_only_when_built base_built
    (states (S3StorageService__init__ bucket region getenv factory
               session_service settings_service)).
Proof.
  intros o. unfold S3StorageService__init__. cbv zeta.
  destruct (factory _) as [client|e]; intros Ho Hready;
    each_state Ho; try discriminate Hready; repeat econstructor.
Qed.

(** C6, as stated, fails: the shared constructor raises the flag as its
    last step, so the object-storage backend is flagged ready before its
    bucket is resolved and its client built; and when the client factory
    refuses, construction fails with the flag already up. *)
Lemma ready_before_s3_client_is_built :
  (∃ o, states (sample_s3_init accepting_factory) !! 4%nat = Some o
        ∧ ready o = true ∧ attr_bucket o = None ∧ attr_s3_client o = None)
  ∧ ¬ ready_only_when_built s3_built (states (sample_s3_init accepting_factory))
  ∧ (∃ e, outcome (sample_s3_init refusing_factory) = Raise e)
  ∧ ready (constructed (sample_s3_init refusing_factory)) = true
  ∧ attr_s3_client (constructed (sample_s3_init refusing_factory)) = None.
Proof.
  split_and!.
  - eexists. split; [vm_compute; reflexivity|]. done.
  - intros Hclaim.
    destruct (states (sample_s3_init accepting_factory) !! 4%nat) as [o|] eqn:Ho;
      [|vm_compute in Ho; discriminate].
    assert (Hin : o ∈ states (sample_s3_init accepting_factory))
      by (eapply list_elem_of_lookup_2; exact Ho).
    vm_compute in Ho. injection Ho as <-.
    destruct (Hclaim _ Hin eq_refl) as (_ & [bucket Hbucket] & _). discriminate.
  - eexists. vm_compute. reflexivity.
  - vm_compute. reflexivity.
  - vm_compute. reflexivity.
Qed.

Lemma local_init_raised_by_base session_service settings_service :
  raised_by_base (LocalStorageService__init__ session_service settings_service).
Proof.
  split.
  - intros i o Hi Ho.
    destruct i as [|[|[|[|i]]]]; [..|lia]; vm_compute in Ho; by injection Ho as <-.
  - eexists. split; [vm_compute; reflexivity|]. split_and!; [done| |done..].
    repeat econstructor.
Qed.

Lemma s3_init_raised_by_base bucket region getenv factory session_service settings_service :
  raised_by_base (S3StorageService__init__ bucket region getenv factory
                    session_service settings_service).
Proof.
  unfold S3StorageService__init__. cbv zeta. split.
  - intros i o Hi.
    destruct (factory _) as [client|e]; intros Ho;
      (destruct i as [|[|[|[|i]]]]; [..|lia]); vm_compute in Ho; by injection Ho as <-.
  - destruct (factory _) as [client|e];
      (eexists; split; [vm_compute; reflexivity|]; split_and!; [done| |done..];
       repeat econstructor).
Qed.

(** C6, amended. On both backends the readiness flag is one-way: along the
    construction it is never reset to false.  It is the shared constructor
    that first sets it, as its last statement: the flag is down in the first
    four states of the object and up from the fifth on, in which the
    collaborators and the data directory are assigned and, on the
    object-storage backend, the bucket is not yet resolved and the client
    not yet built.  Each backend's constructor sets the flag once more as
    its last step; a construction that succeeds ends with the flag set and
    the backend fully built, and a construction that fails because the
    client cannot be built ends with the flag set and no client. *)
Theorem ready_flag_discipline :
  (∀ session_service settings_service,
     let init := LocalStorageService__init__ session_service settings_service in
     flag_discipline base_built init
     ∧ raised_by_base init
     ∧ ready <$> states init = [false; false; false; false; true; true])
  ∧ (∀ bucket region getenv factory session_service settings_service,
       let init := S3StorageService__init__ bucket region getenv factory
                     session_service settings_service in
       flag_discipline s3_built init
       ∧ raised_by_base init
       ∧ ready <$> states init
         = match outcome init with
           | Ok _ => [false; false; false; false; true; true; true; true]
           | Raise _ => [false; false; false; false; true; true]
           end
       ∧ (∀ e, outcome init = Raise e →
               ready (constructed init) = true ∧ attr_s3_client (constructed init) = None)).
Proof.
  split.
  - intros session_service settings_service init. subst init. split_and!.
    + split_and!.
      * eapply one_way_of_flags; [apply local_init_flags|].
        apply (flags_monotone 2).
      * apply local_init_base_built.
      * intros _. vm_compute. repeat econstructor.
    + apply local_init_raised_by_base.
    + apply local_init_flags.
  - intros bucket region getenv factory session_service settings_service init. subst init.
    split_and!.
    + split_and!.
      * eapply one_way_of_flags; [apply s3_init_flags|].
        destruct (outcome _); [apply (flags_monotone 4)|apply (flags_monotone 2)].
      * apply s3_init_base_built.
      * unfold S3StorageService__init__. cbv zeta.
        destruct (factory _) as [client|e]; [|vm_compute; discriminate].
        intros _. vm_compute. repeat econstructor.
    + apply s3_init_raised_by_base.
    + apply s3_init_flags.
    + intros e. unfold S3StorageService__init__. cbv zeta.
      destruct (factory _) as [client|e']; [vm_compute; discriminate|].
      intros _. vm_compute. done.
Qed.

Lemma ready_flag_discipline_witness :
  ready (constructed (sample_s3_init accepting_factory)) = true
  ∧ s3_built (constructed (sample_s3_init accepting_factory))
  ∧ ready (constructed (sample_s3_init refusing_factory)) = true
  ∧ attr_s3_client (constructed (sample_s3_init refusing_factory)) = None.
Proof.
  destruct (proj2 ready_flag_discipline "langflow" "us-east-1" (λ _, None) accepting_factory
              the_session_service sample_settings) as ((_ & _ & Hbuilt) & _).
  destruct (proj2 ready_flag_discipline "langflow" "us-east-1" (λ _, None) refusing_factory
              the_session_service sample_settings) as (_ & _ & _ & Hfailed).
  destruct Hbuilt as [Hready Hs3]; [vm_compute; reflexivity|].
  destruct (Hfailed (ValueError "Invalid endpoint")) as [Hup Hnone];
    [vm_compute; reflexivity|].
  split_and!; [exact Hready | exact Hs3 | exact Hup | exact Hnone].
Defined.

Lemma message_ok_permitted (v : schema.value) :
  schema.message_ok v = true ↔ permitted_shape v.
Proof.
  split.
  - destruct v; cbn; try discriminate; intros _; constructor.
  - intros []; unfold schema.message_ok; cbn; by rewrite ?orb_true_r.
Qed.

(** C9. Constructing an [OutputValue] succeeds exactly when its message has
    one of the five permitted shapes, whatever string the type field
    holds; any other message fails validation on the message field.  A
    construction that succeeds stores the type string, and stores the
    message as it came unless one of the two records accepts it. *)
Theorem OutputValue_validates_message
    (typed_dict_view : schema.value → schema.value) (message : schema.value) (type : string) :
  ((∃ v, schema.OutputValue__init__ typed_dict_view message (schema.VStr type) = Ok v)
     ↔ permitted_shape message)
  ∧ (permitted_shape message →
       ∃ v, schema.OutputValue__init__ typed_dict_view message (schema.VStr type) = Ok v
            ∧ schema.type v = type
            ∧ (schema.is_ErrorLog message = false → schema.is_StreamURL message = false →
               schema.message v = message))
  ∧ (¬ permitted_shape message →
       schema.OutputValue__init__ typed_dict_view message (schema.VStr type)
       = Raise (ValidationError ["message"])).
Proof.
  rewrite <- message_ok_permitted. unfold schema.OutputValue__init__.
  destruct (schema.message_ok message); cbn.
  - split_and!; [split; eauto | | done].
    intros _. eexists. split_and!; [done..|].
    intros He Hs. cbn. unfold schema.validated_message. by rewrite He, Hs.
  - split_and!; [split; [intros [? ?]|]; discriminate | discriminate | done].
Qed.

Lemma OutputValue_validates_message_witness :
  (∃ v, schema.OutputValue__init__ (λ v, v) (schema.VDict [("note", schema.VInt 1)])
          (schema.VStr "object") = Ok v
        ∧ schema.type v = "object"
        ∧ schema.message v = schema.VDict [("note", schema.VInt 1)])
  ∧ schema.OutputValue__init__ (λ v, v) (schema.VInt 3) (schema.VStr "text")
    = Raise (ValidationError ["message"]).
Proof.
  split.
  - destruct (OutputValue_validates_message (λ v, v)
                (schema.VDict [("note", schema.VInt 1)]) "object")
      as (_ & Hok & _).
    destruct Hok as (v & Hv & Htype & Hmessage); [apply shape_map|].
    exists v. split_and!; [exact Hv | exact Htype | by apply Hmessage].
  - apply (OutputValue_validates_message (λ v, v) (schema.VInt 3) "text").
    intros Hshape. inversion Hshape.
Defined.

Lemma extends_with_dirs_refl w : extends_with_dirs w w.
Proof. by repeat split. Qed.

Lemma extends_with_dirs_trans w1 w2 w3 :
  extends_with_dirs w1 w2 → extends_with_dirs w2 w3 → extends_with_dirs w1 w3.
Proof.
  intros (Hc1 & Hl1 & Hr1 & Hk1 & Hf1) (Hc2 & Hl2 & Hr2 & Hk2 & Hf2).
  split_and!; [congruence..| |]; eauto.
Qed.

Lemma node_at_set_node_ne t p q n :
  p ≠ q → node_at (set_node p n t) q = node_at t q.
Proof.
  intros Hpq. destruct q as [|c q]; [done|]. cbn. by rewrite lookup_insert_ne.
Qed.

Lemma os_mkdir_inv p w r w' :
  os.mkdir p w = (r, w') →
  extends_with_dirs w w'
  ∧ match r with
    | Ok _ => node_at (fs w') p = Some Dir
    | Raise e => w' = w ∧ is_OSError e = true
                 ∧ ∀ msg, e = FileNotFoundError msg → p ≠ [] ∧ node_at (fs w) (parent p) = None
    end.
Proof.
  unfold os.mkdir. intros H.
  destruct p as [|c p]; [simplify_eq; split; [apply extends_with_dirs_refl|by repeat split]|].
  set (P := c :: p) in *. assert (HP : P ≠ []) by done. clearbody P.
  destruct P as [|c' P'] eqn:HPeq; [done|]. rewrite <- HPeq in *. clear HPeq c' P' c p.
  destruct (node_at (fs w) (parent P)) as [[?|]|] eqn:Hpar.
  - simplify_eq. split; [apply extends_with_dirs_refl|]. by repeat split.
  - destruct (node_at (fs w) P) as [n|] eqn:Hn.
    + simplify_eq. split; [apply extends_with_dirs_refl|]. by repeat split.
    + destruct (is_readonly (fs w) (parent P)).
      * simplify_eq. split; [apply extends_with_dirs_refl|]. by repeat split.
      * simplify_eq. split; [|by apply node_at_set_node_eq].
        split_and!; [done..| |]; cbn.
        -- intros q n Hq. rewrite node_at_set_node_ne; [done|]. intros ->. congruence.
        -- intros q c0 Hq. destruct (decide (P = q)) as [->|Hne].
           ++ rewrite node_at_set_node_eq in Hq by done. discriminate.
           ++ by rewrite node_at_set_node_ne in Hq.
  - simplify_eq. split; [apply extends_with_dirs_refl|]. split_and!; [done..|].
    intros msg _. done.
Qed.

Lemma is_dir_true p w : 
  (match node_at (fs w) p with Some Dir => true | _ => false end) = true →
  node_at (fs w) p = Some Dir.
Proof. by repeat case_match. Qed.

(** The handler shared by both [mkdir] variants for an [OSError] other than
    [FileNotFoundError]. *)
Lemma mkdir_exists_handler_inv exist_ok p e w r w' :
  (if is_OSError e then
     d ← Path.is_dir p;
     if negb exist_ok || negb d then raise e else mret tt
   else raise e) w = (r, w') →
  w' = w ∧ (r = Ok tt → node_at (fs w) p = Some Dir).
Proof.
  unfold Path.is_dir. unfold_monad.
  destruct (is_OSError e); [|by intros [= <- <-]].
  destruct (negb exist_ok || negb _) eqn:Hor; intros [= <- <-]; [done|].
  split; [done|]. intros _.
  apply orb_false_iff in Hor as [_ Hd%negb_false_iff]. by apply is_dir_true.
Qed.

Lemma mkdir_single_inv exist_ok p w r w' :
  Path.mkdir_single exist_ok p w = (r, w') →
  extends_with_dirs w w' ∧ (r = Ok tt → node_at (fs w') p = Some Dir).
Proof.
  unfold Path.mkdir_single, try_except.
  destruct (os.mkdir p w) as [[[]|e] w1] eqn:Hmk; apply os_mkdir_inv in Hmk as [Hext Hr].
  - by intros [= <- <-].
  - destruct Hr as (-> & _ & _). intros H.
    assert (w' = w ∧ (r = Ok tt → node_at (fs w) p = Some Dir)) as [-> Hd].
    { destruct e; try (by eapply mkdir_exists_handler_inv).
      revert H. unfold raise. by intros [= <- <-]. }
    done.
Qed.

Lemma mkdir_parents_rev_inv exist_ok rp w r w' :
  Path.mkdir_parents_rev exist_ok rp w = (r, w') →
  extends_with_dirs w w' ∧ (r = Ok tt → node_at (fs w') (rev rp) = Some Dir).
Proof.
  revert exist_ok w r w'. induction rp as [|c rp IH]; intros exist_ok w r w';
    cbn [Path.mkdir_parents_rev]; unfold try_except;
    destruct (os.mkdir _ w) as [[[]|e] w1] eqn:Hmk; apply os_mkdir_inv in Hmk as [Hext Hr].
  - by intros [= <- <-].
  - destruct Hr as (-> & _ & _). intros H.
    assert (w' = w ∧ (r = Ok tt → node_at (fs w) (rev []) = Some Dir)) as [-> Hd].
    { destruct e; try (by eapply mkdir_exists_handler_inv).
      revert H. unfold raise. by intros [= <- <-]. }
    done.
  - by intros [= <- <-].
  - destruct Hr as (-> & _ & _). intros H.
    destruct e; try (apply mkdir_exists_handler_inv in H as [-> Hd]; done).
    + revert H. unfold mbind, M_bind, bind.
      destruct (Path.mkdir_parents_rev true rp w) as [[[]|e] w2] eqn:Hrec;
        apply IH in Hrec as [Hext2 _].
      * intros [Hext3 Hd]%mkdir_single_inv. split; [|done].
        by eapply extends_with_dirs_trans.
      * by intros [= <- <-].
Qed.

Lemma Path_mkdir_inv parents exist_ok p w r w' :
  Path.mkdir parents exist_ok p w = (r, w') →
  extends_with_dirs w w' ∧ (r = Ok tt → node_at (fs w') p = Some Dir).
Proof.
  unfold Path.mkdir. destruct parents.
  - intros H%mkdir_parents_rev_inv. by rewrite rev_involutive in H.
  - apply mkdir_single_inv.
Qed.

(** The guarded block either fails and changes nothing, or leaves exactly
    the payload at the file's path and touches no other path. *)
Lemma local_write_step_inv file_path identifier file_name data w r w' :
  local_write_step file_path identifier file_name data w = (r, w') →
  cloud w' = cloud w
  ∧ match r with
    | Ok _ => node_at (fs w') file_path = Some (File data)
              ∧ node_at (fs w) file_path ≠ Some Dir
              ∧ ∀ q, q ≠ file_path → node_at (fs w') q = node_at (fs w) q
    | Raise _ => w' = w
    end.
Proof.
  unfold local_write_step. unfold_monad.
  destruct (aiofile.open_wb file_path w) as [[f|e] w1] eqn:Hopen.
  - pose proof Hopen as (-> & Hp & Hnode & Hlog & Hcloud)%open_wb_ok.
    assert (Hothers : ∀ q, q ≠ file_path → node_at (fs w1) q = node_at (fs w) q).
    { revert Hopen. unfold aiofile.open_wb. intros Hopen q Hq.
      repeat (case_match; simplify_eq); cbn; by rewrite node_at_set_node_ne. }
    assert (Hnotdir : node_at (fs w) file_path ≠ Some Dir).
    { revert Hopen. unfold aiofile.open_wb. intros Hopen Hdir. rewrite Hdir in Hopen.
      discriminate. }
    unfold aiofile.write. rewrite Hnode. intros [= <- <-]. cbn.
    split; [done|]. split_and!; [by apply node_at_set_node_eq|done|].
    intros q Hq. rewrite node_at_set_node_ne by done. by apply Hothers.
  - assert (w1 = w) as ->.
    { revert Hopen. unfold aiofile.open_wb. intros Hopen.
      repeat (case_match; simplify_eq); done. }
    by intros [= <- <-].
Qed.

(** The two steps of the local [save_file], and what comes out of them. *)
Lemma local_save_file_inv svc identifier file_name data w r w' :
  LocalStorageService.save_file svc identifier file_name data w = (r, w') →
  let folder_path := LocalStorageService.data_dir svc </> identifier in
  ∃ r1 w1, Path.mkdir true true folder_path w = (r1, w1)
    ∧ extends_with_dirs w w1
    ∧ match r1 with
      | Raise e => r = Raise e ∧ w' = w1
      | Ok _ =>
          node_at (fs w1) folder_path = Some Dir
          ∧ ∃ r2 w2, local_write_step (folder_path </> file_name) identifier file_name data w1
                       = (r2, w2)
                     ∧ fs w' = fs w2 ∧ cloud w' = cloud w2
                     ∧ match r2 with Ok _ => r = Ok tt | Raise e => r = Raise e end
      end.
Proof.
  intros Hsave folder_path. revert Hsave.
  unfold LocalStorageService.save_file. fold folder_path.
  change (f ← aiofile.open_wb (folder_path </> file_name);
          aiofile.write f data ;;
          logger.info ("File " +:+ file_name +:+ " saved successfully with identifier "
                         +:+ identifier +:+ "."))
    with (local_write_step (folder_path </> file_name) identifier file_name data).
  unfold mbind at 1, M_bind at 1, bind at 1, try_except.
  destruct (Path.mkdir true true folder_path w) as [r1 w1] eqn:Hmk.
  intros Hsave. exists r1, w1. split; [done|].
  apply Path_mkdir_inv in Hmk as [Hext Hdir]. split; [done|].
  destruct r1 as [[]|e1]; [|by injection Hsave as <- <-].
  split; [by apply Hdir|].
  destruct (local_write_step _ _ _ _ w1) as [r2 w2] eqn:Hstep.
  exists r2, w2. split; [done|].
  revert Hsave. destruct r2 as [[]|e2]; unfold_monad; by intros [= <- <-].
Qed.



Lemma local_get_file_ok_inv svc identifier file_name data w w' :
  LocalStorageService.get_file svc identifier file_name w = (Ok data, w') →
  node_at (fs w) (LocalStorageService.data_dir svc </> identifier </> file_name)
  = Some (File data).
Proof.
  unfold LocalStorageService.get_file, Path.exists_, aiofile.open_rb, aiofile.read.
  unfold_monad.
  destruct (node_at (fs w) _) as [[c|]|] eqn:Hn.
  - rewrite bool_decide_true by eauto. cbn. rewrite Hn. cbn. rewrite Hn.
    by intros [= <- <-].
  - rewrite bool_decide_true by eauto. cbn. rewrite Hn. discriminate.
  - rewrite bool_decide_false by (by intros [? ?]). discriminate.
Qed.

Lemma s3_get_file_ok_inv svc identifier file_name data w w' :
  S3StorageService.get_file svc (Some identifier) (Some file_name) w = (Ok data, w') →
  identifier ≠ "" ∧ file_name ≠ "" ∧ serving svc w
  ∧ objects svc w !! key_of identifier file_name = Some data.
Proof.
  unfold S3StorageService.get_file, falsy. cbn [fmt].
  destruct (bool_decide (identifier = "")) eqn:Hi; [discriminate|].
  destruct (bool_decide (file_name = "")) eqn:Hf; [discriminate|].
  apply bool_decide_eq_false in Hi, Hf. cbn [orb].
  unfold boto3.get_object. unfold_monad. fold (key_of identifier file_name).
  destruct (boto3.request _ _ _ w) as [[objs|e] w1] eqn:Hreq.
  - apply request_inv in Hreq as (-> & Hv & Hs & Ho & Hfault & Hb).
    assert (Hobjs : objects svc w = objs) by (unfold objects; by rewrite Hb).
    destruct (objs !! key_of identifier file_name) as [body|] eqn:Hk; [|discriminate].
    intros [= <- <-]. split_and!; [done..| |congruence].
    split_and!; [done..|eauto].
  - destruct e; discriminate.
Qed.

(** [get_file] returns a payload exactly when the backing store holds it at
    the pair's address. *)
Lemma get_file_ok_iff b identifier file_name data w :
  (∃ w', get_file b identifier file_name w = (Ok data, w')) ↔ stored b identifier file_name data w.
Proof.
  destruct b as [svc|svc]; cbn [get_file stored]; split.
  - intros [w' H]. by eapply local_get_file_ok_inv.
  - intros H. rewrite (local_get_file_of_file _ _ _ data) by done. eauto.
  - intros [w' H]. by eapply s3_get_file_ok_inv.
  - intros (Hi & Hf & Hs & Hobj). by apply s3_get_file_of_object.
Qed.

(** The provider's side of a world, apart from the trace of calls. *)
Lemma serving_iff svc w w' :
  same_standing w w' →
  (is_Some (buckets (cloud w') !! S3StorageService.bucket svc)
   ↔ is_Some (buckets (cloud w) !! S3StorageService.bucket svc)) →
  serving svc w' ↔ serving svc w.
Proof.
  intros (Hc & Hf & Ho & Ha) Hb.
  unfold serving, boto3.can_sign, boto3.valid_bucket_name.
  rewrite Hc, Hf, Ho, Ha, Hb. done.
Qed.

Lemma same_standing_record_call call w :
  same_standing w (set_cloud (boto3.record_call call (cloud w)) w).
Proof. done. Qed.

(** What [put_object] does to the provider: always one more call on the
    trace; on success the key is bound in the bucket and nothing else
    changes, on failure no object changes. *)
Lemma put_object_inv svc key body w r w' :
  boto3.put_object (S3StorageService.s3_client svc) (S3StorageService.bucket svc) key body w
    = (r, w') →
  fs w' = fs w ∧ log w' = log w
  ∧ same_standing w w'
  ∧ match r with
    | Ok _ => serving svc w
              ∧ buckets (cloud w')
                = <[S3StorageService.bucket svc := <[key := body]> (objects svc w)]>
                    (buckets (cloud w))
    | Raise _ => buckets (cloud w') = buckets (cloud w)
    end.
Proof.
  unfold boto3.put_object, boto3.store. unfold_monad.
  destruct (boto3.request _ _ _ w) as [[objs|e] w1] eqn:Hreq;
    apply request_inv in Hreq as (-> & Hr); intros [= <- <-]; cbn; [|done].
  destruct Hr as (Hv & Hs & Ho & Hf & Hb). split_and!; [done..| |].
  - split_and!; eauto.
  - unfold objects. by rewrite Hb.
Qed.

Lemma s3_save_file_inv svc identifier file_name data w r w' :
  S3StorageService.save_file svc (Some identifier) (Some file_name) (PyBytes data) w = (r, w') →
  fs w' = fs w
  ∧ same_standing w w'
  ∧ match r with
    | Ok _ => identifier ≠ "" ∧ file_name ≠ "" ∧ serving svc w
              ∧ buckets (cloud w')
                = <[S3StorageService.bucket svc :=
                      <[key_of identifier file_name := data]> (objects svc w)]>
                    (buckets (cloud w))
    | Raise _ => buckets (cloud w') = buckets (cloud w)
    end.
Proof.
  destruct (decide (identifier = "")) as [->|Hi].
  { unfold S3StorageService.save_file. cbn. by intros [= <- <-]. }
  destruct (decide (file_name = "")) as [->|Hf].
  { unfold S3StorageService.save_file, falsy. rewrite bool_decide_false by done.
    cbn. by intros [= <- <-]. }
  rewrite s3_save_file_put by done.
  destruct (boto3.put_object _ _ _ data w) as [r1 w1] eqn:Hput.
  apply put_object_inv in Hput as (Hfs & Hlog & Hst & Hr).
  destruct r1 as [[]|e].
  - intros [= <- <-]. cbn. destruct Hr. done.
  - destruct e; try (intros [= <- <-]; done).
    cbv zeta. case_bool_decide; intros [= <- <-]; done.
Qed.

Lemma objects_insert_bucket svc objs w w' :
  buckets (cloud w') = <[S3StorageService.bucket svc := objs]> (buckets (cloud w)) →
  objects svc w' = objs.
Proof. intros H. unfold objects. by rewrite H, lookup_insert_eq. Qed.

Lemma objects_same_buckets svc w w' :
  buckets (cloud w') = buckets (cloud w) → objects svc w' = objects svc w.
Proof. intros H. unfold objects. by rewrite H. Qed.

Lemma serving_transfer svc w w' :
  same_standing w w' →
  (is_Some (buckets (cloud w) !! S3StorageService.bucket svc) →
   is_Some (buckets (cloud w') !! S3StorageService.bucket svc)) →
  serving svc w → serving svc w'.
Proof.
  intros (Hc & Hf & Ho & Ha) Hb (Hv & Hs & Hout & Hfault & Hbk).
  unfold serving, boto3.can_sign, boto3.valid_bucket_name in *.
  rewrite Hc, Hf, Ho, Ha. split_and!; eauto.
Qed.

Lemma stored_s3_transfer svc identifier file_name data w w' :
  same_standing w w' →
  (is_Some (buckets (cloud w) !! S3StorageService.bucket svc) →
   is_Some (buckets (cloud w') !! S3StorageService.bucket svc)) →
  objects svc w' !! key_of identifier file_name = objects svc w !! key_of identifier file_name →
  stored (S3 svc) identifier file_name data w → stored (S3 svc) identifier file_name data w'.
Proof.
  intros Hst Hb Hobj (Hi & Hfn & Hs & Hdata).
  split_and!; [done..| |congruence].
  by eapply serving_transfer.
Qed.

(** X1. Saving under one address leaves what is stored under any other
    address as it was, whether the save succeeds or fails; both addresses
    are taken literally (on disk, no [".."] on the way). *)
Theorem save_file_leaves_other_addresses
    (b : StorageService) (identifier file_name other_identifier other_name : string)
    (data kept : bytes) (w w' : world) (r : result unit) :
  literal (address_of b identifier file_name) →
  literal (address_of b other_identifier other_name) →
  address_of b identifier file_name ≠ address_of b other_identifier other_name →
  stored b other_identifier other_name kept w →
  save_file b identifier file_name data w = (r, w') →
  stored b other_identifier other_name kept w'
  ∧ ∃ w'', get_file b other_identifier other_name w' = (Ok kept, w'').
Proof.
  intros _ _ Hne Hkept Hsave.
  assert (Hstored : stored b other_identifier other_name kept w');
    [|split; [done|by apply get_file_ok_iff]].
  destruct b as [svc|svc]; cbn [address_of stored save_file] in *.
  - apply local_save_file_inv in Hsave as (r1 & w1 & _ & Hext & Hr1).
    destruct Hext as (_ & _ & _ & Hkeep & _). apply Hkeep in Hkept.
    destruct r1 as [[]|e]; [|by destruct Hr1 as [_ ->]].
    destruct Hr1 as (_ & r2 & w2 & Hstep & Hfs & _). rewrite Hfs.
    apply local_write_step_inv in Hstep as [_ Hr2].
    destruct r2 as [[]|e]; [|by subst].
    destruct Hr2 as (_ & _ & Hothers). rewrite Hothers; [done|]. congruence.
  - apply s3_save_file_inv in Hsave as (_ & Hst & Hr).
    destruct r as [[]|e].
    + destruct Hr as (_ & _ & _ & Hb).
      eapply stored_s3_transfer; [done..| | |exact Hkept].
      * intros _. rewrite Hb, lookup_insert_eq. eauto.
      * rewrite (objects_insert_bucket _ _ _ _ Hb).
        apply lookup_insert_ne. congruence.
    + eapply stored_s3_transfer; [done..| | |exact Hkept].
      * by rewrite Hr.
      * by rewrite (objects_same_buckets _ _ _ Hr).
Qed.

Lemma node_at_remove_node_eq t p : p ≠ [] → node_at (remove_node p t) p = None.
Proof. destruct p; [done|]. intros _. cbn. apply lookup_delete_eq. Qed.

Lemma node_at_remove_node_ne t p q : p ≠ q → node_at (remove_node p t) q = node_at t q.
Proof. intros Hpq. destruct q; [done|]. cbn. by rewrite lookup_delete_ne. Qed.

Lemma local_delete_file_inv svc identifier file_name w r w' :
  LocalStorageService.delete_file svc identifier file_name w = (r, w') →
  let file_path := LocalStorageService.data_dir svc </> identifier </> file_name in
  cloud w' = cloud w
  ∧ (∀ q, q ≠ file_path → node_at (fs w') q = node_at (fs w) q)
  ∧ match r with
    | Ok _ => node_at (fs w') file_path = None
    | Raise _ => fs w' = fs w
    end.
Proof.
  intros Hdel file_path. revert Hdel.
  unfold LocalStorageService.delete_file, Path.exists_, os.unlink. fold file_path.
  unfold_monad.
  destruct (node_at (fs w) file_path) as [[c|]|] eqn:Hn.
  - rewrite bool_decide_true by eauto. cbn. rewrite Hn.
    destruct (is_readonly _ _); intros [= <- <-]; cbn; [done|].
    assert (file_path ≠ []) by (intros Heq; by rewrite Heq in Hn).
    split_and!; [done| |by apply node_at_remove_node_eq].
    intros q Hq. by apply node_at_remove_node_ne.
  - rewrite bool_decide_true by eauto. cbn. rewrite Hn. by intros [= <- <-].
  - rewrite bool_decide_false by (by intros [? ?]). by intros [= <- <-].
Qed.

Lemma s3_delete_file_inv svc identifier file_name w r w' :
  S3StorageService.delete_file svc (Some identifier) (Some file_name) w = (r, w') →
  fs w' = fs w
  ∧ same_standing w w'
  ∧ match r with
    | Ok _ => identifier ≠ "" ∧ file_name ≠ "" ∧ serving svc w
              ∧ buckets (cloud w')
                = <[S3StorageService.bucket svc :=
                      delete (key_of identifier file_name) (objects svc w)]>
                    (buckets (cloud w))
    | Raise _ => buckets (cloud w') = buckets (cloud w)
    end.
Proof.
  unfold S3StorageService.delete_file, falsy. cbn [fmt].
  destruct (bool_decide (identifier = "")) eqn:Hi; [by intros [= <- <-]|].
  destruct (bool_decide (file_name = "")) eqn:Hf; [by intros [= <- <-]|].
  apply bool_decide_eq_false in Hi, Hf. cbn [orb].
  unfold boto3.delete_object, boto3.store. unfold_monad. fold (key_of identifier file_name).
  destruct (boto3.request _ _ _ w) as [[objs|e] w1] eqn:Hreq;
    apply request_inv in Hreq as (-> & Hr).
  - intros [= <- <-]. cbn. destruct Hr as (Hv & Hs & Ho & Hfault & Hb).
    split_and!; [done..| |].
    + split_and!; eauto.
    + unfold objects. by rewrite Hb.
  - destruct e; intros [= <- <-]; done.
Qed.

(** X2. Once [delete_file] has returned, [get_file] on the same pair fails
    with NotFound, and what is stored under any other address is as it
    was; for the latter both addresses are taken literally (on disk, no
    [".."] on the way). *)
Theorem delete_file_then_get_file
    (b : StorageService) (identifier file_name : string) (w w' : world) :
  delete_file b identifier file_name w = (Ok tt, w') →
  fails_with NotFound (get_file b identifier file_name) w'
  ∧ ∀ other_identifier other_name kept,
      literal (address_of b identifier file_name) →
      literal (address_of b other_identifier other_name) →
      address_of b identifier file_name ≠ address_of b other_identifier other_name →
      stored b other_identifier other_name kept w →
      stored b other_identifier other_name kept w'.
Proof.
  intros Hdel. destruct b as [svc|svc]; cbn [delete_file get_file address_of stored] in *.
  - apply local_delete_file_inv in Hdel as (_ & Hothers & Hgone). split.
    + unfold fails_with. rewrite local_get_file_absent by done. by eexists _, _.
    + intros oid oname kept _ _ Hne Hkept. rewrite Hothers; [done|]. congruence.
  - apply s3_delete_file_inv in Hdel as (_ & Hst & Hi & Hfn & Hs & Hb).
    assert (Hs' : serving svc w').
    { eapply serving_transfer; [done| |done].
      intros _. rewrite Hb, lookup_insert_eq. eauto. }
    split.
    + unfold fails_with. rewrite s3_get_file_absent; [by eexists _, _|done..|].
      rewrite (objects_insert_bucket _ _ _ _ Hb). apply lookup_delete_eq.
    + intros oid oname kept _ _ Hne (Hoi & Hon & _ & Hkept). split_and!; [done..|].
      rewrite (objects_insert_bucket _ _ _ _ Hb).
      rewrite lookup_delete_ne; [done|]. congruence.
Qed.





Lemma string_app_cons (a : ascii) (s t : string) :
  String a s +:+ t = String a (s +:+ t).
Proof. reflexivity. Qed.

Lemma string_app_nil (t : string) : "" +:+ t = t.
Proof. reflexivity. Qed.

Lemma string_prefix_app (p s : string) : String.prefix p (p +:+ s) = true.
Proof.
  induction p as [|a p IH]; [by destruct s|].
  rewrite string_app_cons. simpl. destruct (ascii_dec a a); [exact IH|congruence].
Qed.

Lemma string_drop_app (p s : string) : string_drop (String.length p) (p +:+ s) = s.
Proof.
  induction p as [|a p IH]; [by destruct s|].
  rewrite string_app_cons. exact IH.
Qed.

Lemma string_prefix_split (p k : string) :
  String.prefix p k = true → k = p +:+ string_drop (String.length p) k.
Proof.
  revert k. induction p as [|a p IH]; intros k; [by destruct k|].
  destruct k as [|b k]; [done|]. simpl. destruct (ascii_dec a b) as [->|]; [|done].
  intros H. rewrite string_app_cons. simpl. f_equal. by apply IH.
Qed.

Lemma string_app_assoc (a b c : string) : (a +:+ b) +:+ c = a +:+ (b +:+ c).
Proof. induction a as [|x a IH]; [done|]. rewrite !string_app_cons. by f_equal. Qed.

(** The key of a pair is the tenant's listing prefix followed by the name. *)
Lemma key_of_prefix (identifier name : string) :
  key_of identifier name = ("tenant-" +:+ identifier +:+ "/") +:+ name.
Proof. unfold key_of. by rewrite !string_app_assoc. Qed.

(** The keys one page of [list_objects_v2] holds for a prefix. *)
Lemma s3_list_files_ok_inv svc identifier names w w' :
  S3StorageService.list_files svc (Some identifier) w = (Ok names, w') →
  identifier ≠ "" ∧ serving svc w
  ∧ fs w' = fs w ∧ buckets (cloud w') = buckets (cloud w)
  ∧ calls (cloud w')
    = (calls (cloud w)
         ++ [ListObjectsV2 (S3StorageService.bucket svc) ("tenant-" +:+ identifier +:+ "/")])%list
  ∧ names = S3StorageService.file_names ("tenant-" +:+ identifier +:+ "/")
              (take 1000 (filter (λ k, String.prefix ("tenant-" +:+ identifier +:+ "/") k = true)
                            (map_to_list (objects svc w)).*1)).
Proof.
  unfold S3StorageService.list_files, falsy. cbn [fmt].
  destruct (bool_decide (identifier = "")) eqn:Hi; [discriminate|].
  apply bool_decide_eq_false in Hi.
  unfold boto3.list_objects_v2. unfold_monad.
  destruct (boto3.request _ _ _ w) as [[objs|e] w1] eqn:Hreq;
    apply request_inv in Hreq as (-> & Hr).
  - destruct Hr as (Hv & Hs & Ho & Hf & Hb).
    assert (Hobjs : objects svc w = objs) by (unfold objects; by rewrite Hb).
    rewrite Hobjs. cbn.
    intros [= <- <-]. split_and!; [done| |done..|].
    + split_and!; eauto.
    + by destruct (take 1000 _).
  - destruct e; discriminate.
Qed.

Lemma s3_list_files_serving svc identifier w :
  identifier ≠ "" → serving svc w →
  ∃ w', S3StorageService.list_files svc (Some identifier) w
        = (Ok (S3StorageService.file_names ("tenant-" +:+ identifier +:+ "/")
                 (take 1000
                    (filter (λ k, String.prefix ("tenant-" +:+ identifier +:+ "/") k = true)
                       (map_to_list (objects svc w)).*1))), w').
Proof.
  intros Hi Hs. unfold S3StorageService.list_files, falsy.
  rewrite bool_decide_false by done. cbn [fmt].
  unfold boto3.list_objects_v2. unfold_monad.
  rewrite request_serving by done. cbn.
  destruct (take 1000 _); by eexists.
Qed.

(** X4. Every name [list_files] returns on the object-storage backend is
    slash-free and is the file name of an object stored under the tenant's
    prefix; the listing is one request to the provider and changes nothing
    that is stored. *)
Theorem s3_list_files_sound
    (svc : S3StorageService.t) (identifier : string) (names : list string) (w w' : world) :
  S3StorageService.list_files svc (Some identifier) w = (Ok names, w') →
  (∀ name, name ∈ names →
     has_slash name = false ∧ is_Some (objects svc w !! key_of identifier name))
  ∧ calls (cloud w')
    = (calls (cloud w)
         ++ [ListObjectsV2 (S3StorageService.bucket svc) ("tenant-" +:+ identifier +:+ "/")])%list
  ∧ fs w' = fs w ∧ buckets (cloud w') = buckets (cloud w).
Proof.
  intros (Hi & Hs & Hfs & Hb & Hcalls & ->)%s3_list_files_ok_inv.
  split_and!; [|done..].
  intros name Hin. unfold S3StorageService.file_names in Hin.
  apply list_elem_of_fmap in Hin as (key & -> & Hkey).
  apply list_elem_of_filter in Hkey as [[Hprefix Hslash] Hkey].
  split; [done|].
  apply string_prefix_split in Hprefix. rewrite key_of_prefix, <- Hprefix.
  apply subseteq_take, list_elem_of_filter in Hkey as [_ Hkey].
  apply list_elem_of_fmap in Hkey as ([k body] & -> & Hk%elem_of_map_to_list). eauto.
Qed.

(** X5. A slash-free file name stored under the tenant's prefix is listed,
    provided the tenant's keys fit on one page of the provider's answer. *)
Theorem s3_list_files_complete
    (svc : S3StorageService.t) (identifier file_name : string) (data : bytes) (w : world) :
  stored (S3 svc) identifier file_name data w →
  has_slash file_name = false →
  (length (filter (λ k, String.prefix ("tenant-" +:+ identifier +:+ "/") k = true)
             (map_to_list (objects svc w)).*1) ≤ 1000)%nat →
  ∃ names w', S3StorageService.list_files svc (Some identifier) w = (Ok names, w')
              ∧ file_name ∈ names.
Proof.
  intros (Hi & Hf & Hs & Hobj) Hslash Hpage.
  destruct (s3_list_files_serving svc identifier w) as [w' Hlist]; [done..|].
  eexists _, w'. split; [exact Hlist|].
  rewrite take_ge by done. unfold S3StorageService.file_names.
  apply list_elem_of_fmap. exists (key_of identifier file_name).
  rewrite key_of_prefix, string_drop_app. split; [done|].
  apply list_elem_of_filter. split; [split; [apply string_prefix_app|by rewrite string_drop_app]|].
  apply list_elem_of_filter. split; [apply string_prefix_app|].
  apply list_elem_of_fmap. exists (("tenant-" +:+ identifier +:+ "/") +:+ file_name, data).
  split; [done|]. apply elem_of_map_to_list. by rewrite <- key_of_prefix.
Qed.

Lemma regular_names_spec entries w :
  LocalStorageService.regular_names entries w
  = (Ok (Path.name <$>
           filter (λ q, match node_at (fs w) q with Some (File _) => true | _ => false end
                        = true) entries), w).
Proof.
  induction entries as [|q entries IH]; [done|].
  cbn [LocalStorageService.regular_names]. unfold Path.is_file. unfold_monad.
  rewrite IH. destruct (node_at (fs w) q) as [[c|]|] eqn:Hq.
  - rewrite filter_cons_True by (by rewrite Hq). done.
  - rewrite filter_cons_False by (by rewrite Hq). done.
  - rewrite filter_cons_False by (by rewrite Hq). done.
Qed.

Lemma parent_snoc (p : path) (n : string) : parent (p ++ [n])%list = p.
Proof. unfold parent. apply removelast_last. Qed.

Lemma name_snoc (p : path) (n : string) : Path.name (p ++ [n])%list = n.
Proof. unfold Path.name. apply last_last. Qed.

Lemma path_parent_name (q : path) : q ≠ [] → q = (parent q ++ [Path.name q])%list.
Proof. intros Hq. unfold parent, Path.name. by apply app_removelast_last. Qed.

(** The outcome of the local [list_files] in full. *)
Lemma local_list_files_dir svc identifier w :
  node_at (fs w) (LocalStorageService.data_dir svc </> identifier) = Some Dir →
  ∃ names w',
    LocalStorageService.list_files svc identifier w = (Ok names, w')
    ∧ fs w' = fs w ∧ cloud w' = cloud w
    ∧ ∀ name, name ∈ names ↔
        ∃ c, node_at (fs w) (LocalStorageService.data_dir svc </> identifier ++ [name])%list
             = Some (File c).
Proof.
  intros Hdir.
  unfold LocalStorageService.list_files, Path.exists_, Path.is_dir, Path.iterdir, os.scandir.
  set (folder := LocalStorageService.data_dir svc </> identifier) in *.
  unfold mbind, M_bind, bind, mret, M_ret, ret. rewrite Hdir.
  rewrite bool_decide_true by eauto. cbn [negb].
  rewrite Hdir. cbn [negb]. rewrite Hdir. rewrite regular_names_spec.
  unfold logger.info, emit. eexists _, _. split; [reflexivity|].
  split_and!; [done..|]. intros name. rewrite list_elem_of_fmap. split.
  - intros (q & -> & Hq). apply list_elem_of_filter in Hq as [Hfile Hq].
    apply list_elem_of_filter in Hq as [[Hne Hpar] _].
    rewrite <- Hpar, <- path_parent_name by done.
    destruct (node_at (fs w) q) as [[c|]|]; try discriminate. eauto.
  - intros [c Hc]. exists (folder ++ [name])%list. split; [by rewrite name_snoc|].
    apply list_elem_of_filter. split; [by rewrite Hc|].
    apply list_elem_of_filter. split; [split; [by destruct folder|apply parent_snoc]|].
    apply list_elem_of_fmap. exists ((folder ++ [name])%list, File c). split; [done|].
    apply elem_of_map_to_list. revert Hc. unfold node_at. by destruct folder.
Qed.

(** X6. On the local backend [list_files] returns exactly the names of the
    regular files that sit directly in the identifier's directory
    (sub-directories and deeper files are left out), and changes nothing. *)
Theorem local_list_files_exact
    (svc : LocalStorageService.t) (identifier : string) (names : list string) (w w' : world) :
  LocalStorageService.list_files svc identifier w = (Ok names, w') →
  fs w' = fs w
  ∧ node_at (fs w) (LocalStorageService.data_dir svc </> identifier) = Some Dir
  ∧ ∀ name, name ∈ names ↔
      ∃ c, node_at (fs w) (LocalStorageService.data_dir svc </> identifier ++ [name])%list
           = Some (File c).
Proof.
  intros Hlist.
  assert (node_at (fs w) (LocalStorageService.data_dir svc </> identifier) = Some Dir
          ∨ node_at (fs w) (LocalStorageService.data_dir svc </> identifier) ≠ Some Dir)
    as [Hdir|Hnot].
  { destruct (node_at (fs w) _) as [[c|]|]; [by right|by left|by right]. }
  - destruct (local_list_files_dir svc identifier w Hdir)
      as (names' & w'' & Heq & Hfs & _ & Hnames).
    rewrite Hlist in Heq. injection Heq as <- <-. done.
  - rewrite local_list_files_missing in Hlist by done. discriminate.
Qed.

Lemma split_slash_plain (s : string) : has_slash s = false → split_slash s = [s].
Proof.
  induction s as [|a s IH]; [done|]. cbn.
  destruct (Ascii.eqb a "/"); [done|]. cbn. intros Hs. by rewrite (IH Hs).
Qed.

(** A plain name is a single path component. *)
Lemma joinpath_plain (p : path) (s : string) :
  has_slash s = false → s ≠ "" → s ≠ "." → p </> s = (p ++ [s])%list.
Proof.
  intros Hs Hne Hdot. unfold joinpath, components.
  assert (is_absolute s = false) as ->.
  { destruct s as [|a s]; [done|]. cbn in *. by destruct (Ascii.eqb a "/"). }
  rewrite split_slash_plain by done.
  by rewrite filter_cons_True, filter_nil.
Qed.


Lemma components_nil_joinpath (p : path) (s : string) :
  components s = [] → p </> s = p ∨ p </> s = [].
Proof.
  intros Hc. unfold joinpath. rewrite Hc, app_nil_r. destruct (is_absolute s); eauto.
Qed.

(** X8. With a file name that has no component (the empty string, ".",
    "/"), the local [save_file] cannot succeed: the path it opens for
    writing is a directory. *)
Theorem local_save_file_needs_a_name
    (svc : LocalStorageService.t) (identifier file_name : string) (data : bytes) (w : world) :
  components file_name = [] →
  ∃ e w', LocalStorageService.save_file svc identifier file_name data w = (Raise e, w').
Proof.
  intros Hc.
  destruct (LocalStorageService.save_file svc identifier file_name data w)
    as [[[]|e] w'] eqn:Hsave; [|eauto].
  apply local_save_file_inv in Hsave as (r1 & w1 & _ & _ & Hr1).
  destruct r1 as [[]|e]; [|by destruct Hr1].
  destruct Hr1 as (Hdir & r2 & w2 & Hstep & _ & _ & Hr2).
  apply local_write_step_inv in Hstep as [_ Hw].
  destruct r2 as [[]|e]; [|done]. destruct Hw as (_ & Hnotdir & _).
  destruct (components_nil_joinpath (LocalStorageService.data_dir svc </> identifier)
              file_name Hc) as [Heq|Heq]; rewrite Heq in Hnotdir; done.
Qed.

Lemma request_refused svc call w e :
  provider_refusal svc w (boto3.operation_name call) = Some e →
  boto3.request (S3StorageService.s3_client svc) call (S3StorageService.bucket svc) w
  = (Raise e, set_cloud (boto3.record_call call (cloud w)) w)
  ∧ (e = NoCredentialsError ∨ (∃ r, e = ClientError (Some r) (boto3.operation_name call))
     ∨ ∃ kind, e = BotoCoreError kind).
Proof.
  unfold provider_refusal, boto3.request.
  destruct (boto3.valid_bucket_name _ _); cbn [negb]; [|intros [= <-]; eauto].
  destruct (boto3.can_sign _ _); cbn [negb]; [|intros [= <-]; eauto].
  destruct (outage (cloud w)) as [kind|]; [intros [= <-]; eauto|].
  destruct (fault (cloud w)) as [r|]; [intros [= <-]; eauto|].
  destruct (buckets (cloud w) !! _); [discriminate|]. intros [= <-]. eauto.
Qed.

(** X9. The operations other than [save_file] pass a provider error on
    unchanged: a [ClientError] (a missing bucket included, which only
    [save_file] wraps) is logged and re-raised; a missing-credentials error
    and whatever else the SDK raises without an answer of the provider are
    re-raised without a log record. *)
Theorem s3_provider_errors_pass_through
    (svc : S3StorageService.t) (identifier file_name : string) (w : world) :
  identifier ≠ "" → file_name ≠ "" →
  (∀ e, provider_refusal svc w "GetObject" = Some e →
        passes_on e (S3StorageService.get_file svc (Some identifier) (Some file_name)) w)
  ∧ (∀ e, provider_refusal svc w "ListObjectsV2" = Some e →
          passes_on e (S3StorageService.list_files svc (Some identifier)) w)
  ∧ (∀ e, provider_refusal svc w "DeleteObject" = Some e →
          passes_on e (S3StorageService.delete_file svc (Some identifier) (Some file_name)) w)
  ∧ (∀ e, provider_refusal svc w "HeadObject" = Some e →
          passes_on e (S3StorageService.get_file_size svc (Some identifier) (Some file_name)) w).
Proof.
  intros Hi Hf. unfold passes_on. split_and!; intros e He.
  - unfold S3StorageService.get_file, falsy. rewrite !bool_decide_false by done.
    cbn [orb fmt]. unfold boto3.get_object. unfold_monad.
    destruct (request_refused svc (GetObject (S3StorageService.bucket svc)
                                     (key_of identifier file_name)) w e He) as [Hreq Hkind].
    unfold key_of in Hreq. rewrite Hreq.
    destruct Hkind as [->|[[r ->]|[kind ->]]]; eexists; split_and!; try reflexivity.
    by eexists.
  - unfold S3StorageService.list_files, falsy. rewrite !bool_decide_false by done.
    cbn [fmt]. unfold boto3.list_objects_v2. unfold_monad.
    destruct (request_refused svc (ListObjectsV2 (S3StorageService.bucket svc)
                                     ("tenant-" +:+ identifier +:+ "/")) w e He) as [Hreq Hkind].
    rewrite Hreq.
    destruct Hkind as [->|[[r ->]|[kind ->]]]; eexists; split_and!; try reflexivity.
    by eexists.
  - unfold S3StorageService.delete_file, falsy. rewrite !bool_decide_false by done.
    cbn [orb fmt]. unfold boto3.delete_object. unfold_monad.
    destruct (request_refused svc (DeleteObject (S3StorageService.bucket svc)
                                     (key_of identifier file_name)) w e He) as [Hreq Hkind].
    unfold key_of in Hreq. rewrite Hreq.
    destruct Hkind as [->|[[r ->]|[kind ->]]]; eexists; split_and!; try reflexivity.
    by eexists.
  - unfold S3StorageService.get_file_size, falsy. rewrite !bool_decide_false by done.
    cbn [orb fmt]. unfold boto3.head_object. unfold_monad.
    destruct (request_refused svc (HeadObject (S3StorageService.bucket svc)
                                     (key_of identifier file_name)) w e He) as [Hreq Hkind].
    unfold key_of in Hreq. rewrite Hreq.
    destruct Hkind as [->|[[r ->]|[kind ->]]]; eexists; split_and!; try reflexivity.
    by eexists.
Qed.

Ltac storage_cases :=
  repeat (case_match; simplify_eq); intros; simplify_eq; done.

Lemma request_same_storage c call B w r w' :
  boto3.request c call B w = (r, w') → same_storage w w'.
Proof. intros (-> & _)%request_inv. done. Qed.

(** X10. The read operations ([get_file], [list_files], [get_file_size])
    never change the file system or the content of a bucket, whatever
    their outcome, on either backend. *)
Theorem read_operations_change_nothing
    (dir_size : path → nat) (b : StorageService) (identifier file_name : string)
    (w : world) :
  (∀ r w', get_file b identifier file_name w = (r, w') → same_storage w w')
  ∧ (∀ r w', list_files b identifier w = (r, w') → same_storage w w')
  ∧ (∀ r w', get_file_size dir_size b identifier file_name w = (r, w') → same_storage w w').
Proof.
  destruct b as [svc|svc]; cbn [get_file list_files get_file_size]; split_and!; intros r w'.
  - unfold LocalStorageService.get_file, Path.exists_, aiofile.open_rb, aiofile.read.
    unfold_monad. cbn. storage_cases.
  - assert (node_at (fs w) (LocalStorageService.data_dir svc </> identifier) = Some Dir
            ∨ node_at (fs w) (LocalStorageService.data_dir svc </> identifier) ≠ Some Dir)
      as [Hdir|Hnot].
    { destruct (node_at (fs w) _) as [[c|]|]; [by right|by left|by right]. }
    + destruct (local_list_files_dir svc identifier w Hdir) as (names & w'' & -> & Hfs & Hc & _).
      intros [= <- <-]. split; [done|by rewrite Hc].
    + rewrite local_list_files_missing by done. by intros [= <- <-].
  - unfold LocalStorageService.get_file_size, Path.exists_, os.stat_size.
    unfold_monad. cbn. storage_cases.
  - unfold S3StorageService.get_file.
    destruct (falsy (Some identifier)); [by intros [= <- <-]|].
    destruct (falsy (Some file_name)); [by intros [= <- <-]|]. cbn [orb].
    unfold boto3.get_object. unfold_monad.
    destruct (boto3.request _ _ _ w) as [r1 w1] eqn:Hreq.
    apply request_same_storage in Hreq. cbn. storage_cases.
  - unfold S3StorageService.list_files.
    destruct (falsy (Some identifier)); [by intros [= <- <-]|].
    unfold boto3.list_objects_v2. unfold_monad.
    destruct (boto3.request _ _ _ w) as [r1 w1] eqn:Hreq.
    apply request_same_storage in Hreq. cbn. storage_cases.
  - unfold S3StorageService.get_file_size.
    destruct (falsy (Some identifier)); [by intros [= <- <-]|].
    destruct (falsy (Some file_name)); [by intros [= <- <-]|]. cbn [orb].
    unfold boto3.head_object. unfold_monad.
    destruct (boto3.request _ _ _ w) as [r1 w1] eqn:Hreq.
    apply request_same_storage in Hreq. cbn. storage_cases.
Qed.








(** X15. A file that [delete_file] has removed is no longer listed: after a
    successful delete under a plain file name, no listing of the
    identifier contains that name. *)
Theorem delete_file_then_list_files
    (b : StorageService) (identifier file_name : string) (names : list string)
    (w w1 w2 : world) :
  has_slash file_name = false → file_name ≠ "" → file_name ≠ "." →
  delete_file b identifier file_name w = (Ok tt, w1) →
  list_files b identifier w1 = (Ok names, w2) →
  file_name ∉ names.
Proof.
  intros Hs Hne Hdot Hdel Hlist Hin.
  destruct b as [svc|svc]; cbn [delete_file list_files] in *.
  - apply local_delete_file_inv in Hdel as (_ & _ & Hgone).
    rewrite joinpath_plain in Hgone by done.
    assert (Hdir : ∃ c, node_at (fs w1)
                     (LocalStorageService.data_dir svc </> identifier ++ [file_name])%list
                   = Some (File c)).
    { assert (node_at (fs w1) (LocalStorageService.data_dir svc </> identifier) = Some Dir
              ∨ node_at (fs w1) (LocalStorageService.data_dir svc </> identifier) ≠ Some Dir)
        as [Hdir|Hnot].
      { destruct (node_at (fs w1) (LocalStorageService.data_dir svc </> identifier))
          as [[c|]|]; [by right|by left|by right]. }
      - destruct (local_list_files_dir svc identifier w1 Hdir)
          as (names' & w'' & Heq & _ & _ & Hnames).
        rewrite Hlist in Heq. injection Heq as <- <-. by apply Hnames.
      - rewrite local_list_files_missing in Hlist by done. discriminate. }
    destruct Hdir as [c Hc]. congruence.
  - apply s3_delete_file_inv in Hdel as (_ & _ & _ & _ & _ & Hb).
    apply s3_list_files_ok_inv in Hlist as (_ & _ & _ & _ & _ & ->).
    unfold S3StorageService.file_names in Hin.
    apply list_elem_of_fmap in Hin as (key & Hname & Hkey).
    apply list_elem_of_filter in Hkey as [[Hprefix _] Hkey].
    apply subseteq_take, list_elem_of_filter in Hkey as [_ Hkey].
    apply list_elem_of_fmap in Hkey as ([k body] & -> & Hk%elem_of_map_to_list).
    cbn in *. apply string_prefix_split in Hprefix. rewrite <- Hname, <- key_of_prefix in Hprefix.
    subst k. rewrite (objects_insert_bucket _ _ _ _ Hb), lookup_delete_eq in Hk. discriminate.
Qed.

(** X16. [save_file] on the object-storage backend is all or nothing: when
    it returns, the bucket holds the payload under the pair's key and every
    other key is as before; when it raises, for whatever reason, no object
    has changed.  It never touches the file system. *)
Theorem s3_save_file_all_or_nothing
    (svc : S3StorageService.t) (identifier file_name : string) (data : bytes)
    (w w' : world) (r : result unit) :
  S3StorageService.save_file svc (Some identifier) (Some file_name) (PyBytes data) w = (r, w') →
  fs w' = fs w
  ∧ match r with
    | Ok _ => objects svc w' = <[key_of identifier file_name := data]> (objects svc w)
    | Raise _ => buckets (cloud w') = buckets (cloud w)
    end.
Proof.
  intros (Hfs & _ & Hr)%s3_save_file_inv. split; [done|].
  destruct r as [[]|e]; [|done].
  destruct Hr as (_ & _ & _ & Hb). by apply objects_insert_bucket in Hb.
Qed.

(** X11. How [S3StorageService.__init__] configures itself: bucket and region
    fall back to the defaults when the settings lack the attribute; the
    client is given explicit credentials only when both the key id and the
    secret are present and non-empty, and then exactly the resolved values,
    never one without the other; a settings attribute that is present
    takes precedence over the environment variable; the client is whatever
    the factory returns for these arguments, and its failure is the
    constructor's failure. *)
Theorem s3_init_configuration
    (default_bucket default_region : string) (getenv : string → option string)
    (factory : boto3.client → result boto3.client)
    (session_service : SessionService) (settings_service : SettingsService) :
  let cfg := settings settings_service in
  let init := S3StorageService__init__ default_bucket default_region getenv factory
                session_service settings_service in
  let key_id := getattr (s3_aws_access_key_id cfg) (getenv "LANGFLOW_S3_AWS_ACCESS_KEY_ID") in
  let secret :=
    getattr (s3_aws_secret_access_key cfg) (getenv "LANGFLOW_S3_AWS_SECRET_ACCESS_KEY") in
  ∃ kwargs,
    boto3.region_name kwargs = Some (getattr (s3_region_name cfg) default_region)
    ∧ (boto3.aws_access_key_id kwargs = None ∧ boto3.aws_secret_access_key kwargs = None
         ∧ (falsy key_id = true ∨ falsy secret = true)
       ∨ boto3.aws_access_key_id kwargs = key_id ∧ boto3.aws_secret_access_key kwargs = secret
         ∧ falsy key_id = false ∧ falsy secret = false)
    ∧ attr_bucket (constructed init) = Some (getattr (s3_bucket_name cfg) default_bucket)
    ∧ attr_data_dir (constructed init) = Some (Path_of (config_dir cfg))
    ∧ match factory kwargs with
      | Ok client => outcome init = Ok tt ∧ attr_s3_client (constructed init) = Some client
      | Raise e => outcome init = Raise e ∧ attr_s3_client (constructed init) = None
      end.
Proof.
  intros cfg init key_id secret. subst init.
  unfold S3StorageService__init__. cbv zeta. fold cfg. fold key_id. fold secret.
  set (kwargs := if negb (falsy key_id) && negb (falsy secret) then _ else _).
  exists kwargs. split_and!.
  - subst kwargs. by destruct (negb (falsy key_id) && negb (falsy secret)).
  - subst kwargs. destruct (falsy key_id), (falsy secret); cbn; eauto.
  - clearbody kwargs key_id secret. destruct (factory kwargs); reflexivity.
  - clearbody kwargs key_id secret. destruct (factory kwargs); reflexivity.
  - clearbody kwargs key_id secret. destruct (factory kwargs); split; reflexivity.
Qed.

(** X12. [LogType] round-trips its seven values: calling it on a member's
    value gives the member back, a successful call returns the member with
    that value, and every other string is refused with a [ValueError]. *)
Theorem LogType_round_trip :
  (∀ t, schema.LogType_call (schema.LogType_value t) = Ok t)
  ∧ (∀ s t, schema.LogType_call s = Ok t → schema.LogType_value t = s)
  ∧ (∀ s, s ∉ ["message"; "data"; "stream"; "object"; "array"; "text"; "unknown"] →
          ∃ msg, schema.LogType_call s = Raise (ValueError msg)).
Proof.
  split_and!.
  - by intros [].
  - intros s t. unfold schema.LogType_call, schema.LogType_members. cbn.
    repeat (case_bool_decide; [by intros [= <-]|]). discriminate.
  - intros s Hs. unfold schema.LogType_call, schema.LogType_members. cbn.
    repeat (case_bool_decide; [exfalso; apply Hs; subst s; set_solver|]).
    by eexists.
Qed.

(** X13. Which constructions of an [OutputValue] succeed, over both fields:
    exactly those whose message is a dict, a list or a str and whose type
    is a str.  The two record alternatives of the union add nothing: a
    dict without their keys is accepted all the same. *)
Theorem OutputValue_accepts
    (typed_dict_view : schema.value → schema.value) (message type : schema.value) :
  (∃ v, schema.OutputValue__init__ typed_dict_view message type = Ok v)
  ↔ (schema.is_dict message || schema.is_list message || schema.is_str (Some message)) = true
    ∧ schema.is_str (Some type) = true.
Proof.
  unfold schema.OutputValue__init__, schema.message_ok.
  destruct message, type; cbn; rewrite ?orb_true_r; cbn;
    (split; [intros [v Hv]; by simplify_eq | intros [? ?]; by eauto]).
Qed.

(** ** Witnesses of the further properties *)

Lemma stocked_serving : serving sample_s3 stocked_world.
Proof.
  split_and!; [vm_compute; reflexivity..|].
  exists {[ "tenant-flow-1/a.txt" := hello; "tenant-flow-1/sub/b.txt" := bye ]}.
  vm_compute. reflexivity.
Qed.

Lemma stocked_stored_s3_a : stored (S3 sample_s3) "flow-1" "a.txt" hello stocked_world.
Proof.
  split_and!; [discriminate..|apply stocked_serving|vm_compute; reflexivity].
Qed.


Lemma save_file_leaves_other_addresses_witness :
  (∃ w'', get_file (Local sample_local) "flow-1" "a.txt"
            (save_file (Local sample_local) "flow-2" "x.txt" bye stocked_world).2
          = (Ok hello, w''))
  ∧ (∃ w'', get_file (S3 sample_s3) "flow-1" "a.txt"
              (save_file (S3 sample_s3) "flow-2" "x.txt" bye stocked_world).2
            = (Ok hello, w'')).
Proof.
  split.
  - refine (proj2 (save_file_leaves_other_addresses (Local sample_local)
                     "flow-2" "x.txt" "flow-1" "a.txt" bye hello stocked_world
                     (save_file (Local sample_local) "flow-2" "x.txt" bye stocked_world).2
                     (save_file (Local sample_local) "flow-2" "x.txt" bye stocked_world).1
                     _ _ _ _ _)).
    + apply (bool_decide_unpack _). vm_compute. exact I.
    + apply (bool_decide_unpack _). vm_compute. exact I.
    + vm_compute. discriminate.
    + vm_compute. reflexivity.
    + vm_compute. reflexivity.
  - refine (proj2 (save_file_leaves_other_addresses (S3 sample_s3)
                     "flow-2" "x.txt" "flow-1" "a.txt" bye hello stocked_world
                     (save_file (S3 sample_s3) "flow-2" "x.txt" bye stocked_world).2
                     (save_file (S3 sample_s3) "flow-2" "x.txt" bye stocked_world).1
                     _ _ _ _ _)).
    + exact I.
    + exact I.
    + vm_compute. discriminate.
    + apply stocked_stored_s3_a.
    + vm_compute. reflexivity.
Defined.

Lemma delete_file_then_get_file_witness :
  fails_with NotFound (get_file (S3 sample_s3) "flow-1" "a.txt")
    (delete_file (S3 sample_s3) "flow-1" "a.txt" stocked_world).2
  ∧ fails_with NotFound (get_file (Local sample_local) "flow-1" "a.txt")
      (delete_file (Local sample_local) "flow-1" "a.txt" stocked_world).2
  ∧ stored (Local sample_local) "flow-1" "sub/b.txt" bye
      (delete_file (Local sample_local) "flow-1" "a.txt" stocked_world).2.
Proof.
  split_and!.
  - refine (proj1 (delete_file_then_get_file (S3 sample_s3) "flow-1" "a.txt" stocked_world
                     (delete_file (S3 sample_s3) "flow-1" "a.txt" stocked_world).2 _)).
    vm_compute. reflexivity.
  - refine (proj1 (delete_file_then_get_file (Local sample_local) "flow-1" "a.txt"
                     stocked_world
                     (delete_file (Local sample_local) "flow-1" "a.txt" stocked_world).2 _)).
    vm_compute. reflexivity.
  - refine (proj2 (delete_file_then_get_file (Local sample_local) "flow-1" "a.txt"
                     stocked_world
                     (delete_file (Local sample_local) "flow-1" "a.txt" stocked_world).2 _)
              "flow-1" "sub/b.txt" bye _ _ _ _).
    + vm_compute. reflexivity.
    + apply (bool_decide_unpack _). vm_compute. exact I.
    + apply (bool_decide_unpack _). vm_compute. exact I.
    + vm_compute. discriminate.
    + vm_compute. reflexivity.
Defined.


Lemma s3_list_files_sound_witness :
  has_slash "a.txt" = false
  ∧ is_Some (objects sample_s3 stocked_world !! key_of "flow-1" "a.txt").
Proof.
  refine (proj1 (s3_list_files_sound sample_s3 "flow-1" ["a.txt"] stocked_world
                   (S3StorageService.list_files sample_s3 (Some "flow-1") stocked_world).2 _)
            "a.txt" _).
  - vm_compute. reflexivity.
  - left.
Defined.

Lemma s3_list_files_complete_witness :
  ∃ names w', S3StorageService.list_files sample_s3 (Some "flow-1") stocked_world
              = (Ok names, w')
              ∧ "a.txt" ∈ names.
Proof.
  apply (s3_list_files_complete sample_s3 "flow-1" "a.txt" hello stocked_world).
  - apply stocked_stored_s3_a.
  - reflexivity.
  - vm_compute. lia.
Defined.

Lemma local_list_files_exact_witness :
  "a.txt" ∈ ["a.txt"] ↔
  ∃ c, node_at (fs stocked_world)
         (LocalStorageService.data_dir sample_local </> "flow-1" ++ ["a.txt"])%list
       = Some (File c).
Proof.
  refine (proj2 (proj2 (local_list_files_exact sample_local "flow-1" ["a.txt"] stocked_world
                          (LocalStorageService.list_files sample_local "flow-1"
                             stocked_world).2 _)) "a.txt").
  vm_compute. reflexivity.
Defined.


Lemma local_save_file_needs_a_name_witness :
  ∃ e w', LocalStorageService.save_file sample_local "flow-1" "" hello stocked_world
          = (Raise e, w').
Proof.
  apply (local_save_file_needs_a_name sample_local "flow-1" "" hello stocked_world).
  reflexivity.
Defined.

Lemma s3_provider_errors_pass_through_witness :
  passes_on NoCredentialsError
    (S3StorageService.get_file sample_s3 (Some "flow-1") (Some "a.txt")) anonymous_world.
Proof.
  refine (proj1 (s3_provider_errors_pass_through sample_s3 "flow-1" "a.txt" anonymous_world
                   _ _) NoCredentialsError _).
  - discriminate.
  - discriminate.
  - vm_compute. reflexivity.
Defined.

Lemma read_operations_change_nothing_witness :
  same_storage stocked_world
    (get_file (Local sample_local) "flow-1" "a.txt" stocked_world).2.
Proof.
  refine (proj1 (read_operations_change_nothing (λ _, 4096) (Local sample_local)
                   "flow-1" "a.txt" stocked_world)
            (get_file (Local sample_local) "flow-1" "a.txt" stocked_world).1 _ _).
  vm_compute. reflexivity.
Defined.

Lemma LogType_round_trip_witness :
  schema.LogType_value schema.DATA = "data"
  ∧ ∃ msg, schema.LogType_call "warning" = Raise (ValueError msg).
Proof.
  split.
  - apply (proj1 (proj2 LogType_round_trip) "data" schema.DATA). reflexivity.
  - apply (proj2 (proj2 LogType_round_trip) "warning").
    intros Hin. repeat (apply elem_of_cons in Hin as [Hin|Hin]; [discriminate|]).
    by apply elem_of_nil in Hin.
Defined.

Lemma OutputValue_accepts_witness :
  ∃ v, schema.OutputValue__init__ (λ v, v) (schema.VDict [("note", schema.VInt 1)])
         (schema.VStr "object") = Ok v.
Proof.
  apply (OutputValue_accepts (λ v, v) (schema.VDict [("note", schema.VInt 1)])
           (schema.VStr "object")).
  split; reflexivity.
Defined.


Lemma delete_file_then_list_files_witness :
  "a.txt" ∉ ([] : list string).
Proof.
  apply (delete_file_then_list_files (Local sample_local) "flow-1" "a.txt" []
           stocked_world
           (delete_file (Local sample_local) "flow-1" "a.txt" stocked_world).2
           (list_files (Local sample_local) "flow-1"
              (delete_file (Local sample_local) "flow-1" "a.txt" stocked_world).2).2).
  - reflexivity.
  - discriminate.
  - discriminate.
  - vm_compute. reflexivity.
  - vm_compute. reflexivity.
Defined.

Lemma s3_save_file_all_or_nothing_witness :
  fs (S3StorageService.save_file sample_s3 (Some "flow-1") (Some "a.txt") (PyBytes bye)
        stocked_world).2 = fs stocked_world
  ∧ objects sample_s3
      (S3StorageService.save_file sample_s3 (Some "flow-1") (Some "a.txt") (PyBytes bye)
         stocked_world).2
    = <[key_of "flow-1" "a.txt" := bye]> (objects sample_s3 stocked_world).
Proof.
  apply (s3_save_file_all_or_nothing sample_s3 "flow-1" "a.txt" bye stocked_world _ (Ok tt)).
  vm_compute. reflexivity.
Defined.

Lemma s3_init_configuration_witness :
  ∃ kwargs, boto3.region_name kwargs = Some "us-east-1"
            ∧ attr_bucket (constructed (sample_s3_init accepting_factory)) = Some "langflow".
Proof.
  destruct (s3_init_configuration "langflow" "us-east-1" (λ _, None) accepting_factory
              the_session_service sample_settings) as (kwargs & Hregion & _ & Hbucket & _).
  exists kwargs. split; [exact Hregion | exact Hbucket].
Defined.

Lemma parent_length (p : path) : p ≠ [] → length (parent p) < length p.
Proof.
  intros Hp. rewrite (path_parent_name p Hp) at 2. rewrite length_app. cbn. lia.
Qed.

Lemma parent_ne (p : path) : p ≠ [] → parent p ≠ p.
Proof. intros Hp Heq. apply parent_length in Hp. rewrite Heq in Hp. lia. Qed.

Lemma node_at_nonroot t q : q ≠ [] → node_at t q = nodes t !! q.
Proof. by destruct q. Qed.

(** No node hangs below a path that is not a directory. *)
Lemma well_formed_no_child t p q n :
  well_formed t → node_at t p ≠ Some Dir → q ≠ [] → parent q = p →
  nodes t !! q = Some n → False.
Proof. intros Hwf Hp Hq <- Hn. by apply Hp, (Hwf q n). Qed.

Lemma well_formed_set_dir t p :
  well_formed t → p ≠ [] → node_at t (parent p) = Some Dir →
  well_formed (set_node p Dir t).
Proof.
  intros Hwf Hp Hpar q n Hq Hn.
  destruct (decide (parent q = p)) as [->|Hne]; [by apply node_at_set_node_eq|].
  rewrite node_at_set_node_ne by done.
  cbn in Hn. destruct (decide (p = q)) as [<-|Hpq]; [done|].
  rewrite lookup_insert_ne in Hn by done. by eapply Hwf.
Qed.

Lemma well_formed_set_file t p c :
  well_formed t → p ≠ [] → node_at t (parent p) = Some Dir → node_at t p ≠ Some Dir →
  well_formed (set_node p (File c) t).
Proof.
  intros Hwf Hp Hpar Hnd q n Hq Hn.
  cbn in Hn. destruct (decide (p = q)) as [<-|Hpq].
  - rewrite node_at_set_node_ne by (by apply not_eq_sym, parent_ne). done.
  - rewrite lookup_insert_ne in Hn by done.
    destruct (decide (parent q = p)) as [Heq|Hne].
    + exfalso. by eapply (well_formed_no_child t p q).
    + rewrite node_at_set_node_ne by done. by eapply Hwf.
Qed.

Lemma well_formed_remove_file t p :
  well_formed t → node_at t p ≠ Some Dir → well_formed (remove_node p t).
Proof.
  intros Hwf Hnd q n Hq Hn. cbn in Hn.
  destruct (decide (p = q)) as [<-|Hpq]; [by rewrite lookup_delete_eq in Hn|].
  rewrite lookup_delete_ne in Hn by done.
  destruct (decide (parent q = p)) as [Heq|Hne].
  - exfalso. by eapply (well_formed_no_child t p q).
  - rewrite node_at_remove_node_ne by done. by eapply Hwf.
Qed.

Lemma os_mkdir_well_formed p w r w' :
  os.mkdir p w = (r, w') → well_formed (fs w) → well_formed (fs w').
Proof.
  unfold os.mkdir. intros H Hwf.
  destruct p as [|c p]; [by simplify_eq|].
  destruct (node_at (fs w) (parent (c :: p))) as [[?|]|] eqn:Hpar; [by simplify_eq| |by simplify_eq].
  destruct (node_at (fs w) (c :: p)); [by simplify_eq|].
  destruct (is_readonly _ _); simplify_eq; [done|]. cbn.
  by apply well_formed_set_dir.
Qed.

Lemma mkdir_single_well_formed exist_ok p w r w' :
  Path.mkdir_single exist_ok p w = (r, w') → well_formed (fs w) → well_formed (fs w').
Proof.
  unfold Path.mkdir_single, try_except.
  destruct (os.mkdir p w) as [[[]|e] w1] eqn:Hmk.
  - intros [= <- <-]. by eapply os_mkdir_well_formed.
  - pose proof (os_mkdir_well_formed _ _ _ _ Hmk) as Hwf1.
    intros H Hwf. specialize (Hwf1 Hwf).
    destruct e;
      first [apply mkdir_exists_handler_inv in H as [-> _]; done
            |revert H; unfold raise; intros [= <- <-]; done].
Qed.

Lemma mkdir_parents_rev_well_formed exist_ok rp w r w' :
  Path.mkdir_parents_rev exist_ok rp w = (r, w') →
  well_formed (fs w) → well_formed (fs w').
Proof.
  revert exist_ok w r w'. induction rp as [|c rp IH]; intros exist_ok w r w';
    cbn [Path.mkdir_parents_rev]; unfold try_except;
    destruct (os.mkdir _ w) as [[[]|e] w1] eqn:Hmk;
    pose proof (os_mkdir_well_formed _ _ _ _ Hmk) as Hwf1; intros H Hwf; specialize (Hwf1 Hwf).
  - by simplify_eq.
  - destruct e;
      first [apply mkdir_exists_handler_inv in H as [-> _]; done
            |revert H; unfold raise; intros [= <- <-]; done].
  - by simplify_eq.
  - destruct e; try (apply mkdir_exists_handler_inv in H as [-> _]; done).
    revert H. unfold mbind, M_bind, bind.
    destruct (Path.mkdir_parents_rev true rp w1) as [[[]|e] w2] eqn:Hrec;
      pose proof (IH _ _ _ _ Hrec Hwf1) as Hwf2.
    + intros Hs. by eapply mkdir_single_well_formed.
    + by intros [= <- <-].
Qed.

Lemma local_write_step_well_formed file_path identifier file_name data w r w' :
  local_write_step file_path identifier file_name data w = (r, w') →
  well_formed (fs w) → well_formed (fs w').
Proof.
  unfold local_write_step, aiofile.open_wb, aiofile.write. unfold_monad.
  intros H Hwf.
  destruct (decide (file_path = [])) as [->|Hp]; [cbn in H; by simplify_eq|].
  destruct (node_at (fs w) file_path) as [[c|]|] eqn:Hn.
  - destruct (is_readonly _ _); [by simplify_eq|].
    cbn in H. rewrite node_at_set_node_eq in H by done. simplify_eq. cbn.
    assert (Hpar : node_at (fs w) (parent file_path) = Some Dir).
    { rewrite node_at_nonroot in Hn by done. by eapply Hwf. }
    apply well_formed_set_file; cbn.
    + apply well_formed_set_file; [done..|congruence].
    + done.
    + by rewrite node_at_set_node_ne by (by apply not_eq_sym, parent_ne).
    + by rewrite node_at_set_node_eq.
  - by simplify_eq.
  - destruct (node_at (fs w) (parent file_path)) as [[?|]|] eqn:Hpar; [by simplify_eq| |by simplify_eq].
    destruct (is_readonly _ _); [by simplify_eq|].
    cbn in H. rewrite node_at_set_node_eq in H by done. simplify_eq. cbn.
    apply well_formed_set_file; cbn.
    + apply well_formed_set_file; [done..|congruence].
    + done.
    + by rewrite node_at_set_node_ne by (by apply not_eq_sym, parent_ne).
    + by rewrite node_at_set_node_eq.
Qed.

Lemma Path_mkdir_well_formed parents exist_ok p w r w' :
  Path.mkdir parents exist_ok p w = (r, w') → well_formed (fs w) → well_formed (fs w').
Proof.
  unfold Path.mkdir. destruct parents;
    eauto using mkdir_parents_rev_well_formed, mkdir_single_well_formed.
Qed.

(** X17. The local backend keeps the file system a tree: after [save_file]
    and after [delete_file], whatever their outcome, every file and
    directory still sits in a directory. *)
Theorem local_operations_keep_well_formed
    (svc : LocalStorageService.t) (identifier file_name : string) (data : bytes)
    (w w' : world) :
  well_formed (fs w) →
  (∀ r, LocalStorageService.save_file svc identifier file_name data w = (r, w') →
        well_formed (fs w'))
  ∧ (∀ r, LocalStorageService.delete_file svc identifier file_name w = (r, w') →
          well_formed (fs w')).
Proof.
  intros Hwf. split; intros r.
  - intros (r1 & w1 & Hmk & _ & Hr1)%local_save_file_inv.
    apply Path_mkdir_well_formed in Hmk; [|done].
    destruct r1 as [[]|e]; [|by destruct Hr1 as [_ ->]].
    destruct Hr1 as (_ & r2 & w2 & Hstep & -> & _).
    by eapply local_write_step_well_formed.
  - unfold LocalStorageService.delete_file, Path.exists_, os.unlink. unfold_monad.
    destruct (node_at (fs w) _) as [[c|]|] eqn:Hn.
    + rewrite bool_decide_true by eauto. cbn. rewrite Hn.
      destruct (is_readonly _ _); intros [= <- <-]; [done|]. cbn.
      apply well_formed_remove_file; [done|congruence].
    + rewrite bool_decide_true by eauto. cbn. rewrite Hn. by intros [= <- <-].
    + rewrite bool_decide_false by (by intros [? ?]). by intros [= <- <-].
Qed.


(** X19. On the object-storage backend [save_file] with a byte payload
    succeeds exactly when identifier and file name are non-empty and the
    provider serves the request (the SDK admits the bucket name, the
    request can be signed and reaches the service, the service reports no
    error, the bucket exists). *)
Theorem s3_save_file_succeeds_iff
    (svc : S3StorageService.t) (identifier file_name : string) (data : bytes) (w : world) :
  (∃ w', S3StorageService.save_file svc (Some identifier) (Some file_name) (PyBytes data) w
         = (Ok tt, w'))
  ↔ identifier ≠ "" ∧ file_name ≠ "" ∧ serving svc w.
Proof.
  split.
  - intros [w' (_ & _ & Hi & Hf & Hs & _)%s3_save_file_inv]. done.
  - intros (Hi & Hf & Hs). rewrite s3_save_file_put by done.
    unfold boto3.put_object, boto3.store. unfold_monad.
    rewrite request_serving by done. eauto.
Qed.

(** A check that decides [well_formed] by going through the nodes. *)
Lemma well_formed_check (t : filesystem) :
  forallb (λ qn : path * node,
             bool_decide (qn.1 = [])
             || match node_at t (parent qn.1) with Some Dir => true | _ => false end)
    (map_to_list (nodes t)) = true →
  well_formed t.
Proof.
  intros Hall q n Hq Hn. rewrite forallb_forall in Hall.
  apply elem_of_map_to_list, list_elem_of_In, Hall in Hn. cbn in Hn.
  rewrite bool_decide_false in Hn by done. cbn in Hn.
  unfold parent. by destruct (node_at t (removelast q)) as [[?|]|].
Qed.

Lemma stocked_well_formed : well_formed (fs stocked_world).
Proof. apply well_formed_check. vm_compute. reflexivity. Qed.

Lemma local_operations_keep_well_formed_witness :
  well_formed
    (fs (LocalStorageService.save_file sample_local "flow-9/run" "out.bin" hello
           stocked_world).2).
Proof.
  refine (proj1 (local_operations_keep_well_formed sample_local "flow-9/run" "out.bin" hello
                   stocked_world _ stocked_well_formed)
            (LocalStorageService.save_file sample_local "flow-9/run" "out.bin" hello
               stocked_world).1 _).
  vm_compute. reflexivity.
Defined.

Lemma s3_save_file_succeeds_iff_witness :
  ∃ w', S3StorageService.save_file sample_s3 (Some "flow-1") (Some "a.txt") (PyBytes bye)
          stocked_world = (Ok tt, w').
Proof.
  apply (s3_save_file_succeeds_iff sample_s3 "flow-1" "a.txt" bye stocked_world).
  split_and!; [discriminate..|apply stocked_serving].
Defined.

(** ** Saving twice *)










